(** * The message protocol of zordzman-plus-plus: net::MessageProcessor

    A shallow embedding of [net::MessageProcessor] (the header that frames,
    queues, dispatches and flushes JSON-encoded messages over a socket)
    together with the part of the json11 library it calls, and the
    properties of the protocol stated over that embedding.  Three small
    pieces of the client stand beside it: the sprite of a tile
    ([client::tile::render]), the socket [sys::TCPSocket] and the special
    quotes of [json::formatJson]. *)

From Stdlib Require Import ZArith Ascii Lia.
From Stdlib Require String DecimalString DecimalZ DecimalFacts DecimalPos DecimalN OrderedTypeEx.
From stdpp Require Import gmap strings list.

Local Open Scope Z_scope.

(** ** Characters and byte strings

    [std::string] is a Rocq [string]: a sequence of 8-bit characters. *)

Definition dquote : ascii := "034"%char.
Definition backslash : ascii := "\"%char.

(** [bq s] writes JSON text without quoting marks in the literal: every
    backquote of [s] stands for a double quote.  This is the
    [specialQuotes] substitution of [json::formatJson]. *)
Fixpoint bq (s : string) : string :=
  match s with
  | EmptyString => EmptyString
  | String c s' => String (if Ascii.eqb c "`"%char then dquote else c) (bq s')
  end.

Definition code (c : ascii) : N := N_of_ascii c.

(** ** json11: the JSON values and their text

    The header parses and prints JSON through json11
    (common/extlib/json11/json11.hpp), which is not among the sources.
    This module is its model, written from what the spec says of the
    wire format and of the extraction of values. *)
Module json11.

(** Modelled from the spec: the json11 library ([json11::Json], included by
    the header as common/extlib/json11/json11.hpp) is not among the
    sources.  A value is null, a boolean, a number, a string, an array or
    an object.  Numbers are integers here: fractions and exponents are
    floating point and stay outside the model.  An object is a
    [std::map<std::string, Json>], held as its list of entries in
    increasing key order with each key once. *)
#[warnings="-register-all"]
Inductive Json : Type :=
| JNull
| JBool (b : bool)
| JNumber (n : Z)
| JString (s : string)
| JArray (items : list Json)
| JObject (members : list (string * Json)).

(** Modelled from the spec: [Json::is_string] and [Json::string_value]
    of json11, the test for a string and its text (empty for any other
    value). *)
Definition is_string (j : Json) : bool :=
  match j with JString _ => true | _ => false end.

Definition string_value (j : Json) : string :=
  match j with JString s => s | _ => EmptyString end.

Definition is_number (j : Json) : bool :=
  match j with JNumber _ => true | _ => false end.

Definition is_object (j : Json) : bool :=
  match j with JObject _ => true | _ => false end.

(** [std::map::operator[]] assignment on the entries of an object: the
    entry for [k] is replaced when present and put at its place in key
    order otherwise. *)
Fixpoint obj_insert (k : string) (v : Json) (m : list (string * Json))
  : list (string * Json) :=
  match m with
  | [] => [(k, v)]
  | (k', v') :: m' =>
      match String.compare k k' with
      | Lt => (k, v) :: m
      | Eq => (k, v) :: m'
      | Gt => (k', v') :: obj_insert k v m'
      end
  end.

(** The object built from entries given in textual order, a later entry
    for a key replacing an earlier one. *)
Definition obj_of_members (ms : list (string * Json)) : list (string * Json) :=
  fold_left (fun m kv => obj_insert kv.1 kv.2 m) ms [].

Fixpoint obj_find (k : string) (m : list (string * Json)) : option Json :=
  match m with
  | [] => None
  | (k', v) :: m' => if String.eqb k k' then Some v else obj_find k m'
  end.

(** Modelled from the spec: [Json::operator[](const std::string &)] of
    json11, the member of an object, and null for a missing member or a
    value that is no object. *)
Definition json_index (j : Json) (k : string) : Json :=
  match j with
  | JObject m => default JNull (obj_find k m)
  | _ => JNull
  end.

(** Keys strictly increasing: the order invariant of [std::map]. *)
Fixpoint keys_increasing (m : list (string * Json)) : bool :=
  match m with
  | [] => true
  | (k, _) :: m' =>
      match m' with
      | [] => true
      | (k', _) :: _ =>
          match String.compare k k' with Lt => true | _ => false end
      end && keys_increasing m'
  end.

(** The values a program can hold: every object in it obeys the map
    invariant. *)
Fixpoint wf_json (j : Json) : bool :=
  match j with
  | JArray items => forallb wf_json items
  | JObject m =>
      keys_increasing m
      && (fix wf_members (l : list (string * Json)) : bool :=
            match l with
            | [] => true
            | (_, v) :: l' => wf_json v && wf_members l'
            end) m
  | _ => true
  end.

(** *** Serialisation *)

Definition hex_digit (n : N) : ascii :=
  ascii_of_N (if (n <? 10)%N then 48 + n else 87 + n)%N.

(** One character of a string in JSON text. *)
Definition dump_char (c : ascii) : string :=
  if Ascii.eqb c backslash then String backslash (String backslash EmptyString)
  else if Ascii.eqb c dquote then String backslash (String dquote EmptyString)
  else if Ascii.eqb c "008"%char then String backslash "b"
  else if Ascii.eqb c "012"%char then String backslash "f"
  else if Ascii.eqb c "010"%char then String backslash "n"
  else if Ascii.eqb c "013"%char then String backslash "r"
  else if Ascii.eqb c "009"%char then String backslash "t"
  else if (code c <=? 31)%N then
    String backslash
      (String "u" (String "0" (String "0"
         (String (hex_digit (code c / 16)) (String (hex_digit (code c mod 16)) EmptyString)))))
  else String c EmptyString.

Fixpoint dump_chars (s : string) : string :=
  match s with
  | EmptyString => EmptyString
  | String c s' => dump_char c +:+ dump_chars s'
  end.

Definition dump_string (s : string) : string :=
  String dquote (dump_chars s +:+ String dquote EmptyString).

Definition dump_number (n : Z) : string :=
  DecimalString.NilZero.string_of_int (Z.to_int n).

(** Modelled from the spec: [Json::dump] of json11, which is not among the
    sources.  It writes the value as JSON text on one line, array items
    and object members separated by a comma and a space, a member as its
    quoted key, a colon, a space and its value. *)
Fixpoint dump (j : Json) : string :=
  match j with
  | JNull => "null"
  | JBool true => "true"
  | JBool false => "false"
  | JNumber n => dump_number n
  | JString s => dump_string s
  | JArray items =>
      "[" +:+
      match items with
      | [] => EmptyString
      | v :: l =>
          dump v +:+
          (fix more (l : list Json) : string :=
             match l with
             | [] => EmptyString
             | v :: l' => ", " +:+ dump v +:+ more l'
             end) l
      end +:+ "]"
  | JObject m =>
      "{" +:+
      match m with
      | [] => EmptyString
      | (k, v) :: l =>
          dump_string k +:+ ": " +:+ dump v +:+
          (fix more (l : list (string * Json)) : string :=
             match l with
             | [] => EmptyString
             | (k, v) :: l' => ", " +:+ dump_string k +:+ ": " +:+ dump v +:+ more l'
             end) l
      end +:+ "}"
  end.

(** The text of the items of an array after its first one, and of the
    members of an object after its first one. *)
Fixpoint dump_more_items (l : list Json) : string :=
  match l with
  | [] => EmptyString
  | v :: l' => ", " +:+ dump v +:+ dump_more_items l'
  end.

Fixpoint dump_more_members (l : list (string * Json)) : string :=
  match l with
  | [] => EmptyString
  | (k, v) :: l' => ", " +:+ dump_string k +:+ ": " +:+ dump v +:+ dump_more_members l'
  end.

(** *** Parsing *)

(** Modelled from the spec: the bytes that separate values, which are the
    JSON white space and, the values being "whitespace/null-separated",
    the null byte. *)
Definition is_separator (c : ascii) : bool :=
  Ascii.eqb c " "%char || Ascii.eqb c "013"%char || Ascii.eqb c "010"%char
  || Ascii.eqb c "009"%char || Ascii.eqb c "000"%char.

Fixpoint consume_whitespace (s : string) : string :=
  match s with
  | EmptyString => EmptyString
  | String c s' => if is_separator c then consume_whitespace s' else s
  end.

Definition is_digit (c : ascii) : bool :=
  (48 <=? code c)%N && (code c <=? 57)%N.

(** The leading digits of a text and what follows them. *)
Fixpoint span_digits (s : string) : string * string :=
  match s with
  | EmptyString => (EmptyString, EmptyString)
  | String c s' =>
      if is_digit c
      then let '(ds, r) := span_digits s' in (String c ds, r)
      else (EmptyString, s)
  end.

(** A character that would continue a number: after an integer the
    parser must not see a digit, a fraction or an exponent. *)
Definition continues_number (s : string) : bool :=
  match s with
  | EmptyString => false
  | String c _ =>
      is_digit c || Ascii.eqb c "."%char || Ascii.eqb c "e"%char || Ascii.eqb c "E"%char
  end.

(** The digits of a number; a number that goes on with a fraction or an
    exponent is outside the model and refused. *)
Definition parse_digits (neg : bool) (s : string) : option (Json * string) :=
  let '(ds, r) := span_digits s in
  match ds with
  | EmptyString => None
  | String d ds' =>
      if Ascii.eqb d "0"%char && negb (String.eqb ds' EmptyString) then None
      else if continues_number r then None
      else
        match DecimalString.NilEmpty.uint_of_string ds with
        | Some n =>
            Some (JNumber (if neg then - Z.of_uint n else Z.of_uint n), r)
        | None => None
        end
  end.

(** A number: an optional minus sign and digits, with no needless
    leading zero. *)
Definition parse_number (s : string) : option (Json * string) :=
  match s with
  | EmptyString => None
  | String c s' =>
      if Ascii.eqb c "-"%char then parse_digits true s' else parse_digits false s
  end.

Definition hex_value (c : ascii) : option N :=
  let n := code c in
  if is_digit c then Some (n - 48)%N
  else if (97 <=? n)%N && (n <=? 102)%N then Some (n - 87)%N
  else if (65 <=? n)%N && (n <=? 70)%N then Some (n - 55)%N
  else None.

Definition hex4 (a b c d : ascii) : option N :=
  match hex_value a, hex_value b, hex_value c, hex_value d with
  | Some x, Some y, Some z, Some w => Some (((x * 16 + y) * 16 + z) * 16 + w)%N
  | _, _, _, _ => None
  end.

(** The UTF-8 bytes of a code point below 65536 (an escape of four
    hexadecimal digits names no more). *)
Definition encode_utf8 (pt : N) : string :=
  if (pt <? 128)%N then String (ascii_of_N pt) EmptyString
  else if (pt <? 2048)%N then
    String (ascii_of_N (192 + pt / 64))
      (String (ascii_of_N (128 + pt mod 64)) EmptyString)
  else
    String (ascii_of_N (224 + pt / 4096))
      (String (ascii_of_N (128 + (pt / 64) mod 64))
         (String (ascii_of_N (128 + pt mod 64)) EmptyString)).

Definition unescape (c : ascii) : option ascii :=
  if Ascii.eqb c "b"%char then Some "008"%char
  else if Ascii.eqb c "f"%char then Some "012"%char
  else if Ascii.eqb c "n"%char then Some "010"%char
  else if Ascii.eqb c "r"%char then Some "013"%char
  else if Ascii.eqb c "t"%char then Some "009"%char
  else if Ascii.eqb c dquote || Ascii.eqb c backslash || Ascii.eqb c "/"%char
  then Some c
  else None.

(** The text of a string after its opening quote: the characters up to
    the closing quote, escapes decoded, and what follows the quote. *)
Fixpoint parse_string (s : string) : option (string * string) :=
  match s with
  | EmptyString => None
  | String c s' =>
      if Ascii.eqb c dquote then Some (EmptyString, s')
      else if (code c <=? 31)%N then None
      else if Ascii.eqb c backslash then
        match s' with
        | EmptyString => None
        | String e s'' =>
            if Ascii.eqb e "u"%char then
              match s'' with
              | String h1 (String h2 (String h3 (String h4 r))) =>
                  match hex4 h1 h2 h3 h4, parse_string r with
                  | Some pt, Some (v, r') => Some (encode_utf8 pt +:+ v, r')
                  | _, _ => None
                  end
              | _ => None
              end
            else
              match unescape e, parse_string s'' with
              | Some x, Some (v, r') => Some (String x v, r')
              | _, _ => None
              end
        end
      else
        match parse_string s' with
        | Some (v, r') => Some (String c v, r')
        | None => None
        end
  end.

(** [expect word v s]: the literal [word] (its first letter already read)
    at the head of [s]. *)
Fixpoint expect (word : string) (v : Json) (s : string) : option (Json * string) :=
  match word with
  | EmptyString => Some (v, s)
  | String w word' =>
      match s with
      | String c s' => if Ascii.eqb c w then expect word' v s' else None
      | EmptyString => None
      end
  end.

(** Modelled from the spec: the parser of json11 for one value.  It reads
    the value at the head of the text, after any separators, and gives
    the text that follows it; [None] when the text ends inside the value
    or is no JSON.  [fuel] bounds the nesting and the number of items and
    members visited; the length of the text is always enough. *)
Fixpoint parse_json (fuel : nat) (s : string) {struct fuel} : option (Json * string) :=
  match fuel with
  | O => None
  | S fuel =>
      match consume_whitespace s with
      | EmptyString => None
      | String c r =>
          if Ascii.eqb c "-"%char || is_digit c then parse_number (String c r)
          else if Ascii.eqb c "t"%char then expect "rue" (JBool true) r
          else if Ascii.eqb c "f"%char then expect "alse" (JBool false) r
          else if Ascii.eqb c "n"%char then expect "ull" JNull r
          else if Ascii.eqb c dquote then
            match parse_string r with
            | Some (v, r') => Some (JString v, r')
            | None => None
            end
          else if Ascii.eqb c "["%char then
            match consume_whitespace r with
            | EmptyString => None
            | String c1 r1 =>
                if Ascii.eqb c1 "]"%char then Some (JArray [], r1)
                else
                  match parse_items fuel (String c1 r1) with
                  | Some (vs, r') => Some (JArray vs, r')
                  | None => None
                  end
            end
          else if Ascii.eqb c "{"%char then
            match consume_whitespace r with
            | EmptyString => None
            | String c1 r1 =>
                if Ascii.eqb c1 "}"%char then Some (JObject [], r1)
                else
                  match parse_members fuel (String c1 r1) with
                  | Some (ms, r') => Some (JObject (obj_of_members ms), r')
                  | None => None
                  end
            end
          else None
      end
  end
with parse_items (fuel : nat) (s : string) {struct fuel}
  : option (list Json * string) :=
  match fuel with
  | O => None
  | S fuel =>
      match parse_json fuel s with
      | None => None
      | Some (v, r) =>
          match consume_whitespace r with
          | String c r' =>
              if Ascii.eqb c "]"%char then Some ([v], r')
              else if Ascii.eqb c ","%char then
                match parse_items fuel r' with
                | Some (vs, r'') => Some (v :: vs, r'')
                | None => None
                end
              else None
          | EmptyString => None
          end
      end
  end
with parse_members (fuel : nat) (s : string) {struct fuel}
  : option (list (string * Json) * string) :=
  match fuel with
  | O => None
  | S fuel =>
      match consume_whitespace s with
      | String q r =>
          if Ascii.eqb q dquote then
            match parse_string r with
            | None => None
            | Some (k, r1) =>
                match consume_whitespace r1 with
                | String c r2 =>
                    if Ascii.eqb c ":"%char then
                      match parse_json fuel r2 with
                      | None => None
                      | Some (v, r3) =>
                          match consume_whitespace r3 with
                          | String d r4 =>
                              if Ascii.eqb d "}"%char then Some ([(k, v)], r4)
                              else if Ascii.eqb d ","%char then
                                match parse_members fuel r4 with
                                | Some (ms, r5) => Some ((k, v) :: ms, r5)
                                | None => None
                                end
                              else None
                          | EmptyString => None
                          end
                      end
                    else None
                | EmptyString => None
                end
            end
          else None
      | EmptyString => None
      end
  end.

(** Modelled from the spec: the loop of [Json::parse_multi].  The text
    parses as zero or more complete values: separators are skipped
    before each value and behind the last, until the text is used up or
    a value fails.  [fuel] bounds the number of values. *)
Fixpoint parse_values (fuel : nat) (s : string) {struct fuel}
  : option (list Json) :=
  match consume_whitespace s with
  | EmptyString => Some []
  | String c r =>
      match fuel with
      | O => None
      | S fuel' =>
          match parse_json (S (String.length r)) (String c r) with
          | None => None
          | Some (v, r') =>
              match parse_values fuel' r' with
              | Some vs => Some (v :: vs)
              | None => None
              end
          end
      end
  end.

(** Modelled from the spec: [Json::parse_multi] of json11, which is not
    among the sources.  It reads the whole text as a sequence of JSON
    values separated by white space (or null bytes) and returns them with
    an empty error text; when the text ends inside a value or holds
    anything that is no JSON the error text is not empty, and the values
    returned with it are not used by the caller. *)
Definition parse_multi (s : string) : list Json * string :=
  match parse_values (String.length s) s with
  | Some vs => (vs, EmptyString)
  | None => ([], "parse error")
  end.

(** Induction on a value, the items of an array and the members of an
    object being values themselves. *)
Section Json_nested_ind.
Variable P : Json -> Prop.
Hypothesis Hnull : P JNull.
Hypothesis Hbool : forall b, P (JBool b).
Hypothesis Hnumber : forall n, P (JNumber n).
Hypothesis Hstring : forall s, P (JString s).
Hypothesis Harray : forall items, Forall P items -> P (JArray items).
Hypothesis Hobject :
  forall members, Forall (fun kv => P kv.2) members -> P (JObject members).

Fixpoint Json_nested_ind (j : Json) : P j :=
  match j with
  | JNull => Hnull
  | JBool b => Hbool b
  | JNumber n => Hnumber n
  | JString s => Hstring s
  | JArray items =>
      Harray items
        ((fix go (l : list Json) : Forall P l :=
            match l with
            | [] => Forall_nil_2 P
            | v :: l' => Forall_cons_2 P v l' (Json_nested_ind v) (go l')
            end) items)
  | JObject members =>
      Hobject members
        ((fix go (l : list (string * Json)) : Forall (fun kv => P kv.2) l :=
            match l with
            | [] => Forall_nil_2 _
            | kv :: l' =>
                Forall_cons_2 (fun kv => P kv.2) kv l' (Json_nested_ind kv.2) (go l')
            end) members)
  end.
End Json_nested_ind.

(** A text that does not go on with a digit. *)
Definition no_digit_ahead (s : string) : bool :=
  match s with EmptyString => true | String c _ => negb (is_digit c) end.

(** All keys of [m] below [k]. *)
Definition keys_below (k : string) (m : list (string * Json)) : Prop :=
  Forall (fun kv => String.compare kv.1 k = Lt) m.

(** A value read back from its text. *)
Definition reads_back (j : Json) : Prop :=
  wf_json j = true ->
  forall fuel rest,
    (String.length (dump j) <= fuel)%nat ->
    continues_number rest = false ->
    parse_json fuel (dump j +:+ rest) = Some (j, rest).

End json11.

(** ** Byte strings: the pieces used by the transport *)

Fixpoint string_take (n : nat) (s : string) : string :=
  match n, s with
  | S n', String c s' => String c (string_take n' s')
  | _, _ => EmptyString
  end.

Fixpoint string_drop (n : nat) (s : string) : string :=
  match n, s with
  | S n', String _ s' => string_drop n' s'
  | _, _ => s
  end.

Fixpoint string_repeat (c : ascii) (n : nat) : string :=
  match n with
  | O => EmptyString
  | S n' => String c (string_repeat c n')
  end.

(** A text without its last byte. *)
Definition string_init (s : string) : string :=
  string_take (String.length s - 1) s.

(** A text cut into pieces of one byte. *)
Definition bytewise (s : string) : list string :=
  map (fun c => String c EmptyString) (String.list_ascii_of_string s).

Definition string_concat (l : list string) : string :=
  foldr String.append EmptyString l.

(** ** Machine integers of the flush loop *)

(** Conversion to [int] (32 bits, two's complement). *)
Definition int_wrap (z : Z) : Z := (z + 2 ^ 31) mod 2 ^ 32 - 2 ^ 31.

(** Conversion to [size_t] (64 bits, unsigned). *)
Definition to_size_t (z : Z) : Z := z mod 2 ^ 64.

(** ** The socket *)

Inductive Errno : Type := EWOULDBLOCK | ECONNRESET | EPIPE | ENOTCONN.

(** What one call of [recv] gives: bytes (their number is the return
    value, 0 for an orderly shutdown) or -1 with [errno] set. *)
Inductive RecvResult : Type :=
| Received (bytes : string)
| RecvFailed (e : Errno).

(** The peer and the kernel, as the processor meets them.  [on_recv k n]
    is the outcome of call number [k] of [recv] with room for [n] bytes;
    [on_send k n] is the value call number [k] of [::send] returns when
    offered [n] bytes (-1 for an error, else the number of bytes taken).
    [wire] keeps the bytes the socket has taken so far. *)
Record Transport : Type := mkTransport {
  on_recv : nat -> nat -> RecvResult;
  on_send : nat -> nat -> Z;
  recv_calls : nat;
  send_calls : nat;
  wire : string
}.

(** [recv(m_socket, buf, len)]: the return value and the bytes stored. *)
Definition sys_recv (t : Transport) (len : nat) : Z * string * Transport :=
  let t' := mkTransport (on_recv t) (on_send t) (S (recv_calls t)) (send_calls t) (wire t) in
  match on_recv t (recv_calls t) len with
  | Received bytes =>
      let got := string_take len bytes in
      (Z.of_nat (String.length got), got, t')
  | RecvFailed _ => (-1, EmptyString, t')
  end.

(** [::send(m_socket, data, len, 0)]: the return value; the bytes taken
    go on the wire. *)
Definition sys_send (t : Transport) (data : string) : Z * Transport :=
  let d := on_send t (send_calls t) (String.length data) in
  (d, mkTransport (on_recv t) (on_send t) (recv_calls t) (S (send_calls t))
        (wire t +:+ string_take (Z.to_nat d) data)).

(** A socket that keeps to the contract of [::send]: a call that offers
    bytes returns -1 or a number of bytes between 0 and the number
    offered. *)
Definition send_in_range (t : Transport) : Prop :=
  forall k n, (0 < n)%nat -> on_send t k n = -1 \/ 0 <= on_send t k n <= Z.of_nat n.

(** A socket that takes at least one byte of every call that offers
    some, and never more than offered. *)
Definition send_accepts (t : Transport) : Prop :=
  forall k n, (0 < n)%nat -> 0 < on_send t k n <= Z.of_nat n.

(** A loop observed for a bounded number of steps: it has returned, or
    it is still running, in the state given. *)
Inductive Run (A : Type) : Type :=
| Returned (a : A)
| Running (a : A).
Arguments Returned {A} a.
Arguments Running {A} a.

(** ** net::MessageProcessor *)
Module net.
Import json11.

(** The typedefs of the header. *)
Abbreviation MessageType := string (only parsing).
Abbreviation MessageEntity := Json (only parsing).
Abbreviation Socket := Z (only parsing).

(** [std::tuple<MessageType, MessageEntity>], the element of both queues. *)
Abbreviation Message := (string * Json)%type (only parsing).

Section MessageProcessor.

(** [template <class ... Args>]: the context arguments of the handlers. *)
Context {Args : Type}.

(** A handler is a [std::function] called with the processor, the entity
    and the context arguments.  What it does with the processor is
    [send]: [handler_body] gives the messages it sends, in order.
    [handler_name] tells the handlers apart in the record of calls. *)
Record Handler : Type := mkHandler {
  handler_name : nat;
  handler_body : MessageEntity -> Args -> list Message
}.

(** A muted handler is not given the processor, so it sends nothing. *)
Record MutedHandler : Type := mkMutedHandler {
  muted_name : nat;
  muted_body : MessageEntity -> Args -> unit
}.

Record MessageProcessor : Type := mkProcessor {
  m_socket : Socket;
  m_buffer : string;
  (** [m_buffer.capacity()] *)
  m_capacity : Z;
  (** the bytes [recv] left in the reserved storage behind the content of
      [m_buffer]; they are no part of the string *)
  m_received : string;
  m_handlers : gmap string (list Handler);
  (** the queues, front first *)
  m_ingress : list Message;
  m_egress : list Message
}.

(** What [dispatch] does, in order: a handler called with the processor
    (told by its socket), an entity and the context arguments, and a
    message popped from the inbound queue. *)
Inductive Event : Type :=
| Called (name : nat) (this : Socket) (entity : MessageEntity) (args : Args)
| Popped (type : MessageType) (entity : MessageEntity).

(** [MessageProcessor(Socket socket)] *)
Definition new_processor (socket : Socket) : MessageProcessor :=
  mkProcessor socket EmptyString 8192 EmptyString ∅ [] [].

(** [std::map::operator[]]: the handlers under [type], an empty vector
    being put there first when the map has no entry. *)
Definition subscript (m : gmap string (list Handler)) (type : MessageType)
  : list Handler * gmap string (list Handler) :=
  match m !! type with
  | Some hs => (hs, m)
  | None => ([], <[type := []]> m)
  end.

Definition with_handlers (p : MessageProcessor) (m : gmap string (list Handler))
  : MessageProcessor :=
  mkProcessor (m_socket p) (m_buffer p) (m_capacity p) (m_received p) m
    (m_ingress p) (m_egress p).

Definition with_ingress (p : MessageProcessor) (q : list Message) : MessageProcessor :=
  mkProcessor (m_socket p) (m_buffer p) (m_capacity p) (m_received p)
    (m_handlers p) q (m_egress p).

Definition with_egress (p : MessageProcessor) (q : list Message) : MessageProcessor :=
  mkProcessor (m_socket p) (m_buffer p) (m_capacity p) (m_received p)
    (m_handlers p) (m_ingress p) q.

Definition with_buffer (p : MessageProcessor) (b : string) : MessageProcessor :=
  mkProcessor (m_socket p) b (m_capacity p) (m_received p)
    (m_handlers p) (m_ingress p) (m_egress p).

Definition with_received (p : MessageProcessor) (b : string) : MessageProcessor :=
  mkProcessor (m_socket p) (m_buffer p) (m_capacity p) b
    (m_handlers p) (m_ingress p) (m_egress p).

(** [addHandler(type, handler)]: [m_handlers[type].push_back(handler)] *)
Definition addHandler (type : MessageType) (handler : Handler) (p : MessageProcessor)
  : MessageProcessor :=
  let '(hs, m) := subscript (m_handlers p) type in
  with_handlers p (<[type := hs ++ [handler]]> m).

(** [addHandler(type, MutedHandler)]: the muted handler wrapped in a
    handler that leaves the processor alone. *)
Definition addMutedHandler (type : MessageType) (handler : MutedHandler)
    (p : MessageProcessor) : MessageProcessor :=
  addHandler type
    (mkHandler (muted_name handler)
       (fun entity args => let _ := muted_body handler entity args in []))
    p.

(** [send(type, entity)]: [m_egress.emplace(type, entity)] *)
Definition send (type : MessageType) (entity : MessageEntity) (p : MessageProcessor)
  : MessageProcessor :=
  with_egress p (m_egress p ++ [(type, entity)]).

(** The [for] loop of [dispatch]: every handler of the vector in turn. *)
Fixpoint call_handlers (hs : list Handler) (entity : MessageEntity) (args : Args)
    (p : MessageProcessor) (tr : list Event) : MessageProcessor * list Event :=
  match hs with
  | [] => (p, tr)
  | h :: hs' =>
      call_handlers hs' entity args
        (fold_left (fun q m => send m.1 m.2 q) (handler_body h entity args) p)
        (tr ++ [Called (handler_name h) (m_socket p) entity args])
  end.

(** The [while] loop of [dispatch], on the inbound queue [queue] of [p]. *)
Fixpoint dispatch_loop (args : Args) (queue : list Message) (p : MessageProcessor)
    (tr : list Event) : MessageProcessor * list Event :=
  match queue with
  | [] => (with_ingress p [], tr)
  | (type, entity) :: rest =>
      let '(hs, m) := subscript (m_handlers p) type in
      let '(p', tr') := call_handlers hs entity args (with_handlers p m) tr in
      dispatch_loop args rest (with_ingress p' rest) (tr' ++ [Popped type entity])
  end.

(** [dispatch(args ...)], with the record of what it did. *)
Definition dispatch (args : Args) (p : MessageProcessor) : MessageProcessor * list Event :=
  dispatch_loop args (m_ingress p) p [].

(** The body of the [for] loop of [parseBuffer] for one parsed value. *)
Definition enqueue_message (p : MessageProcessor) (message : Json) : MessageProcessor :=
  let type := json_index message "type" in
  if is_string type
  then with_ingress p (m_ingress p ++ [(string_value type, json_index message "entity")])
  else p.

(** [parseBuffer()] *)
Definition parseBuffer (p : MessageProcessor) : MessageProcessor :=
  if String.eqb (m_buffer p) EmptyString then p
  else
    let '(messages, json_error) := parse_multi (m_buffer p) in
    if negb (String.length json_error =? 0)%nat then p
    else fold_left enqueue_message messages (with_buffer p EmptyString).

(** A processor on its socket. *)
Record Connection : Type := mkConnection {
  processor : MessageProcessor;
  transport : Transport
}.

(** [proccess()].  The function returns [void]: the caller gets [tt] and
    nothing else.  [recv] stores the bytes in the reserved storage behind
    the content of [m_buffer]; the size of [m_buffer] is left as it was,
    so [parseBuffer] is run on the content the buffer had before. *)
Definition proccess (c : Connection) : unit * Connection :=
  let p := processor c in
  let free_buffer :=
    to_size_t (m_capacity p - Z.of_nat (String.length (m_buffer p))) in
  if free_buffer =? 0 then (tt, c)
  else
    let '(data_or_error, bytes, t) := sys_recv (transport c) (Z.to_nat free_buffer) in
    if data_or_error =? 0 then (tt, mkConnection p t)
    else if data_or_error =? -1 then (tt, mkConnection p t)
    else (tt, mkConnection (parseBuffer (with_received p bytes)) t).

(** [proccess()] called [n] times in a row on a connection. *)
Fixpoint proccess_times (n : nat) (c : Connection) : Connection :=
  match n with
  | O => c
  | S n' => proccess_times n' (proccess c).2
  end.

(** The envelope [flushSendQueue] builds for a queued message:
    [Json::object{{"type", type}, {"entity", entity}}]. *)
Definition envelope (m : Message) : Json :=
  JObject (obj_of_members [("type", JString m.1); ("entity", m.2)]).

(** [message.dump() + " "] *)
Definition encode (m : Message) : string :=
  dump (envelope m) +:+ " ".

(** The inner [while] loop of [flushSendQueue]; [sent] is an [int], the
    comparison and the length offered are computed in [size_t].  [fuel]
    bounds the number of calls of [::send]: the loop has [Returned] with
    the fuel left, or is still [Running] when the fuel is used up. *)
Fixpoint send_loop (fuel : nat) (t : Transport) (encoded_message : string) (sent : Z)
  : Run (Transport * nat) :=
  if to_size_t sent <? Z.of_nat (String.length encoded_message) then
    match fuel with
    | O => Running (t, O)
    | S fuel' =>
        let '(data_or_error, t') :=
          sys_send t (string_drop (Z.to_nat sent) encoded_message) in
        if data_or_error =? -1
        then send_loop fuel' t' encoded_message sent
        else send_loop fuel' t' encoded_message (int_wrap (sent + data_or_error))
    end
  else Returned (t, fuel).

(** The outer [while] loop of [flushSendQueue] on the outbound queue: the
    front message is encoded and popped, then sent. *)
Fixpoint flush_loop (fuel : nat) (queue : list Message) (p : MessageProcessor)
    (t : Transport) : Run Connection :=
  match queue with
  | [] => Returned (mkConnection (with_egress p []) t)
  | m :: rest =>
      let encoded_message := encode m in
      let p' := with_egress p rest in
      match send_loop fuel t encoded_message 0 with
      | Returned (t', fuel') => flush_loop fuel' rest p' t'
      | Running (t', _) => Running (mkConnection p' t')
      end
  end.

(** The bytes of a queue on the wire. *)
Definition encode_all (queue : list Message) : string :=
  string_concat (map encode queue).

(** Every message of the queue has an encoding an [int] can count. *)
Definition int_sized (queue : list Message) : Prop :=
  Forall (fun m => Z.of_nat (String.length (encode m)) < 2 ^ 31) queue.

(** [flushSendQueue()], observed for [fuel] calls of [::send]. *)
Definition flushSendQueue (fuel : nat) (c : Connection) : Run Connection :=
  flush_loop fuel (m_egress (processor c)) (processor c) (transport c).

(** The message a parsed value stands for, in the words of the spec: an
    object with a string under [type] gives that type with the value
    under [entity], null when there is none; any other value gives no
    message. *)
Definition message_of_value (v : Json) : option Message :=
  match v with
  | JObject m =>
      match obj_find "type" m with
      | Some (JString type) => Some (type, default JNull (obj_find "entity" m))
      | _ => None
      end
  | _ => None
  end.

(** The handlers registered under a type, in registration order. *)
Definition registered (type : MessageType) (p : MessageProcessor) : list Handler :=
  default [] (m_handlers p !! type).

(** The registry after the subscript of [dispatch] has met the types of
    a queue. *)
Definition touched (queue : list Message) (m : gmap string (list Handler))
  : gmap string (list Handler) :=
  fold_left (fun m' msg => (subscript m' msg.1).2) queue m.

(** The calls one message gives rise to, and its pop. *)
Definition events_of (this : Socket) (args : Args) (p : MessageProcessor)
    (m : Message) : list Event :=
  map (fun h => Called (handler_name h) this m.2 args) (registered m.1 p)
  ++ [Popped m.1 m.2].

(** The replies the handlers of one message send. *)
Definition replies_of (args : Args) (p : MessageProcessor) (m : Message)
  : list Message :=
  flat_map (fun h => handler_body h m.2 args) (registered m.1 p).

(** Messages a program can hold and send. *)
Definition wf_messages (l : list Message) : Prop :=
  Forall (fun m : Message => wf_json m.2 = true) l.

(** What may stand in a buffer before the first message: nothing, or the
    delimiter of the message before. *)
Definition blank (ws : string) : Prop := ws = EmptyString \/ ws = " ".

End MessageProcessor.

Arguments Handler : clear implicits.
Arguments MutedHandler : clear implicits.
Arguments MessageProcessor : clear implicits.
Arguments Connection : clear implicits.
Arguments Event : clear implicits.

End net.

(** ** Sockets and connections of the examples *)

(** A socket on which every [recv] and every [::send] fails with the
    given [errno]. *)
Definition failing_socket (e : Errno) : Transport :=
  mkTransport (fun _ _ => RecvFailed e) (fun _ _ => -1) 0 0 EmptyString.

(** A socket with nothing to read that takes up to [chunk] bytes of every
    [::send]. *)
Definition steady_socket (chunk : Z) : Transport :=
  mkTransport (fun _ _ => RecvFailed EWOULDBLOCK)
    (fun _ n => Z.min chunk (Z.of_nat n)) 0 0 EmptyString.

(** A socket with the given bytes ready to be read. *)
Definition readable_socket (bytes : string) : Transport :=
  mkTransport (fun _ _ => Received bytes) (fun _ n => Z.of_nat n) 0 0 EmptyString.

(** A socket on which call number [k] of [recv] finds chunk number [k]
    of a byte stream ready to be read; when the chunks are used up the
    peer has shut the connection down. *)
Definition chunked_socket (chunks : list string) : Transport :=
  mkTransport (fun k _ => Received (nth k chunks EmptyString))
    (fun _ n => Z.of_nat n) 0 0 EmptyString.

(** A stream that is longer than the buffer: the 8192 bytes of an
    unfinished array, and its last bytes. *)
Definition overlong_chunks : list string :=
  [String "["%char (string_repeat "1"%char (Z.to_nat 8191)); "1] "].

(** A processor whose buffer ends inside a value. *)
Definition truncated_processor : net.MessageProcessor unit :=
  net.with_buffer (net.new_processor 3) (bq "{`type`:`a`,`entity`:[1,").

(** A processor whose buffer holds four values: two messages, a number
    and an object without [type]. *)
Definition mixed_processor : net.MessageProcessor unit :=
  net.with_buffer (net.new_processor 3)
    (bq "{`type`:`a`,`entity`:1} 7 {`entity`:2} {`type`:`b`} ").

(** A processor with one message of a type nobody handles. *)
Definition unhandled_processor : net.MessageProcessor unit :=
  net.with_ingress (net.new_processor 3) [("nope", json11.JNull)].

(** A connection on a socket that takes seven bytes at a time. *)
Definition steady_connection : net.Connection unit :=
  net.mkConnection (net.new_processor 3) (steady_socket 7).

(** A connection whose socket has failed. *)
Definition failed_connection : net.Connection unit :=
  net.mkConnection (net.new_processor 3) (failing_socket ECONNRESET).

(** The two messages of the scenario of the spec. *)
Definition scenario_messages : list (string * json11.Json) :=
  [("a", json11.JNumber 1); ("b", json11.JNumber 2)].

(** ** The reserved storage of the buffer *)

(** The content of [m_buffer] and the bytes [recv] has put behind it lie
    within the capacity, and the capacity is one a [size_t] can hold. *)
Definition within_capacity {Args : Type} (p : net.MessageProcessor Args) : Prop :=
  net.m_capacity p < 2 ^ 64
  /\ Z.of_nat (String.length (net.m_buffer p) + String.length (net.m_received p))
     <= net.m_capacity p.

(** ** client::tile::render *)
Module tile.

Section render.

(** The tile identifiers of [Tile.hpp], whatever their values are. *)
Variables GRASS FLOWER WATER : Z.

(** [byte] is a typedef of [Tile.hpp]: [as_byte z] is the value a [byte]
    has when it is given the integer [z]. *)
Variable as_byte : Z -> Z.

(** [byte render(byte id, int ticks)]: the sprite a tile shows at a tick.
    The arguments become a [byte] and an [int] (32 bits) at the call, and
    the sprite returned becomes a [byte].  The [%] of C++ truncates
    towards zero, as [Z.rem] does.  The labels of a [switch] are tried
    here in the order they are written; the compiler accepts them only
    when they differ, and then the order is of no account. *)
Definition render (id : Z) (ticks : Z) : Z :=
  let id := as_byte id in
  let ticks := int_wrap ticks in
  let animticks := Z.rem ticks 240 in
  as_byte
    (if id =? GRASS then 0
     else if id =? FLOWER then 1
     else if id =? WATER then
       if (60 <=? animticks) && (animticks <? 120) then 3
       else if (120 <=? animticks) && (animticks <? 180) then 4
       else if (180 <=? animticks) && (animticks <? 240) then 3
       else 2
     else 0).

End render.

(** A [byte] of eight bits without a sign. *)
Definition unsigned_byte (z : Z) : Z := z mod 2 ^ 8.

End tile.

(** ** sys::TCPSocket *)
Module sys.

(** The socket of the client: the flag [m_open], the connection behind
    the handle [m_socket], and the number of calls of [SDLNet_TCP_Close]
    made so far. *)
Record TCPSocket : Type := mkTCPSocket {
  m_open : bool;
  m_socket : Transport;
  tcp_closes : nat
}.

(** [send(const void *buf, int len)].  [SDLNet_TCP_Send] is offered the
    first [len] bytes at [buf] and returns the number of bytes it has
    sent.  The line printed on [stderr] when it has sent fewer is left
    out. *)
Definition send_bytes (buf : string) (len : Z) (s : TCPSocket) : bool * TCPSocket :=
  if negb (m_open s) then (false, s)
  else
    let '(taken, t) := sys_send (m_socket s) (string_take (Z.to_nat len) buf) in
    if taken <? len then (false, mkTCPSocket (m_open s) t (tcp_closes s))
    else (true, mkTCPSocket (m_open s) t (tcp_closes s)).

(** [send(std::string buf)]: [send(buf.c_str(), buf.size() + 1)]; the
    bytes at [c_str()] are the text and the NUL that ends it, and the
    length becomes an [int]. *)
Definition send (buf : string) (s : TCPSocket) : bool * TCPSocket :=
  send_bytes (buf +:+ String "000"%char EmptyString)
    (int_wrap (Z.of_nat (String.length buf) + 1)) s.

(** [close()] *)
Definition close (s : TCPSocket) : TCPSocket :=
  if m_open s then mkTCPSocket false (m_socket s) (S (tcp_closes s)) else s.

(** [~TCPSocket()] *)
Definition destroy (s : TCPSocket) : TCPSocket := close s.

End sys.

(** ** Handlers, sockets and processors of further examples *)

(** A handler that sends the entity back under the type [echo]. *)
Definition echo_handler : net.Handler unit :=
  net.mkHandler 1 (fun entity _ => [("echo", entity)]).

(** A socket with nothing to read on which every other [::send] fails,
    the others taking up to three bytes. *)
Definition flaky_socket : Transport :=
  mkTransport (fun _ _ => RecvFailed EWOULDBLOCK)
    (fun k n => if Nat.even k then -1 else Z.min 3 (Z.of_nat n)) 0 0 EmptyString.

(** A processor with a handler for [ping] and one [ping] received. *)
Definition pinged_processor : net.MessageProcessor unit :=
  net.with_ingress (net.addHandler "ping" echo_handler (net.new_processor 3))
    [("ping", json11.JNumber 7)].

(** A processor whose buffer holds a whole message and the first bytes
    of the next. *)
Definition held_back_processor : net.MessageProcessor unit :=
  net.with_buffer (net.new_processor 3)
    (bq "{`entity`: 1, `type`: `a`} {`entity`: 2, `ty").

(** A connection with one message to send. *)
Definition loaded_connection (t : Transport) : net.Connection unit :=
  net.mkConnection (net.send "net.udp" (json11.JNumber 4545) (net.new_processor 3)) t.

(** An open socket that sends all it is offered. *)
Definition open_socket : sys.TCPSocket :=
  sys.mkTCPSocket true (readable_socket EmptyString) 0.

(** * Properties *)

(** ** Byte strings *)

Lemma string_app_cons c s t : String c s +:+ t = String c (s +:+ t).
Proof. reflexivity. Qed.

Lemma string_app_nil_l s : EmptyString +:+ s = s.
Proof. reflexivity. Qed.

Lemma string_app_nil_r s : s +:+ EmptyString = s.
Proof. induction s as [|c s IH]; [done|]. by rewrite string_app_cons, IH. Qed.

Lemma string_app_assoc s t u : (s +:+ t) +:+ u = s +:+ (t +:+ u).
Proof. induction s as [|c s IH]; [done|]. by rewrite !string_app_cons, IH. Qed.

Lemma string_length_app s t :
  String.length (s +:+ t) = (String.length s + String.length t)%nat.
Proof. induction s as [|c s IH]; [done|]. rewrite string_app_cons. simpl. by rewrite IH. Qed.

Lemma string_app_eq_nil s t : s +:+ t = EmptyString -> s = EmptyString /\ t = EmptyString.
Proof. destruct s; [done|]. by rewrite string_app_cons. Qed.

(** Two ways of cutting one text: one of the first parts is the head of
    the other. *)
Lemma string_app_eq_app s1 : forall t1 s2 t2,
  s1 +:+ t1 = s2 +:+ t2 ->
  (exists k, s2 = s1 +:+ k /\ t1 = k +:+ t2) \/
  (exists c k, s1 = s2 +:+ String c k /\ t2 = String c k +:+ t1).
Proof.
  induction s1 as [|a s1 IH]; intros t1 s2 t2 H.
  - left. exists s2. by rewrite !string_app_nil_l in *.
  - destruct s2 as [|b s2].
    + right. exists a, s1. by rewrite string_app_nil_l in *.
    + rewrite !string_app_cons in H. injection H as -> H.
      destruct (IH _ _ _ H) as [(k & -> & ->)|(c & k & -> & ->)].
      * left. by exists k.
      * right. by exists c, k.
Qed.

Lemma string_take_drop n s : string_take n s +:+ string_drop n s = s.
Proof.
  revert s. induction n as [|n IH]; intros [|c s]; simpl; try done.
  by rewrite string_app_cons, IH.
Qed.

Lemma string_take_app_drop a d s :
  string_take a s +:+ string_take d (string_drop a s) = string_take (a + d) s.
Proof.
  revert s. induction a as [|a IH]; intros [|c s]; simpl; try done.
  - by destruct d.
  - by rewrite string_app_cons, IH.
Qed.

Lemma string_take_all n s : (String.length s <= n)%nat -> string_take n s = s.
Proof.
  revert s. induction n as [|n IH]; intros [|c s]; simpl; try done; try lia.
  intros H. rewrite IH; [done|lia].
Qed.

Lemma string_length_drop n s :
  String.length (string_drop n s) = (String.length s - n)%nat.
Proof. revert s. induction n as [|n IH]; intros [|c s]; simpl; try done. Qed.

Lemma string_eqb_nil s : String.eqb s EmptyString = true <-> s = EmptyString.
Proof. apply String.eqb_eq. Qed.

Lemma string_concat_app l1 l2 :
  string_concat (l1 ++ l2) = string_concat l1 +:+ string_concat l2.
Proof.
  induction l1 as [|x l1 IH]; [done|].
  simpl. unfold string_concat in *. simpl. by rewrite IH, string_app_assoc.
Qed.

(** ** json11: a value is read back from its text *)

(** Texts brought to one shape: characters in front, appends nested to
    the right. *)
Ltac string_norm :=
  repeat (rewrite string_app_assoc || rewrite string_app_cons
          || rewrite string_app_nil_l).

Ltac string_norm_in H :=
  repeat (rewrite string_app_assoc in H || rewrite string_app_cons in H
          || rewrite string_app_nil_l in H).

Section json11_facts.
Import json11 Decimal.

Lemma consume_whitespace_skip c s :
  is_separator c = true -> consume_whitespace (String c s) = consume_whitespace s.
Proof. intros H. simpl. by rewrite H. Qed.

Lemma consume_whitespace_stop c s :
  is_separator c = false -> consume_whitespace (String c s) = String c s.
Proof. intros H. simpl. by rewrite H. Qed.

Lemma consume_whitespace_head s c r :
  consume_whitespace s = String c r -> is_separator c = false.
Proof.
  induction s as [|a s IH]; simpl; [done|].
  destruct (is_separator a) eqn:Ha; [done|]. by intros [= <- _].
Qed.

Lemma consume_whitespace_app s t c r :
  consume_whitespace s = String c r ->
  consume_whitespace (s +:+ t) = String c (r +:+ t).
Proof.
  induction s as [|a s IH]; simpl; [done|].
  destruct (is_separator a) eqn:Ha; [done|].
  intros [= <- <-]. done.
Qed.

Lemma expect_app word v s t j r :
  expect word v s = Some (j, r) -> expect word v (s +:+ t) = Some (j, r +:+ t).
Proof.
  revert s. induction word as [|w word IH]; intros s; simpl.
  - by intros [= <- <-].
  - destruct s as [|c s]; [done|]. simpl.
    destruct (Ascii.eqb c w); [apply IH|done].
Qed.

Lemma expect_value word v s j r : expect word v s = Some (j, r) -> j = v.
Proof.
  revert s. induction word as [|w word IH]; intros s; simpl.
  - by intros [= <- _].
  - destruct s as [|c s]; [done|]. destruct (Ascii.eqb c w); [apply IH|done].
Qed.

(** *** Strings *)

Lemma parse_string_dump_char c X :
  parse_string (dump_char c +:+ X) =
  match parse_string X with Some (v, r) => Some (String c v, r) | None => None end.
Proof.
  destruct c as [[] [] [] [] [] [] [] []]; reflexivity.
Qed.

Lemma parse_string_dump v rest :
  parse_string (dump_chars v +:+ String dquote rest) = Some (v, rest).
Proof.
  induction v as [|c v IH]; [done|].
  cbn [dump_chars]. rewrite string_app_assoc, parse_string_dump_char. by rewrite IH.
Qed.

Lemma parse_string_app_n n : forall s t v r,
  (String.length s <= n)%nat ->
  parse_string s = Some (v, r) ->
  parse_string (s +:+ t) = Some (v, r +:+ t).
Proof.
  induction n as [|n IH]; intros [|c s] t v r Hlen; simpl in *; try done; try lia.
  destruct (Ascii.eqb c dquote); [by intros [= <- <-]|].
  destruct (code c <=? 31)%N; [done|].
  destruct (Ascii.eqb c backslash).
  - destruct s as [|e s]; [done|]. simpl in *.
    destruct (Ascii.eqb e "u").
    + destruct s as [|h1 [|h2 [|h3 [|h4 r0]]]]; simpl in *; try done.
      destruct (hex4 h1 h2 h3 h4); [|done].
      destruct (parse_string r0) as [[v' r']|] eqn:Hr0; [|done].
      intros [= <- <-]. by rewrite (IH r0 t v' r') by (done || lia).
    + destruct (unescape e); [|done].
      destruct (parse_string s) as [[v' r']|] eqn:Hs; [|done].
      intros [= <- <-]. by rewrite (IH s t v' r') by (done || lia).
  - destruct (parse_string s) as [[v' r']|] eqn:Hs; [|done].
    intros [= <- <-]. by rewrite (IH s t v' r') by (done || lia).
Qed.

Lemma parse_string_app s t v r :
  parse_string s = Some (v, r) -> parse_string (s +:+ t) = Some (v, r +:+ t).
Proof. by apply (parse_string_app_n (String.length s)). Qed.

(** *** Numbers *)

Lemma span_digits_app s t ds c r :
  span_digits s = (ds, String c r) ->
  span_digits (s +:+ t) = (ds, String c r +:+ t).
Proof.
  revert ds. induction s as [|a s IH]; intros ds; simpl; [done|].
  destruct (is_digit a) eqn:Ha.
  - destruct (span_digits s) as [ds' r'] eqn:Hs. intros [= <- ->].
    by rewrite (IH ds').
  - by intros [= <- <- <-].
Qed.

Lemma continues_number_app c r t :
  continues_number (String c r +:+ t) = continues_number (String c r).
Proof. reflexivity. Qed.

Lemma parse_digits_app neg s t j c r :
  parse_digits neg s = Some (j, String c r) ->
  parse_digits neg (s +:+ t) = Some (j, String c r +:+ t).
Proof.
  unfold parse_digits.
  destruct (span_digits s) as [ds r0] eqn:Hs.
  destruct ds as [|d ds']; [done|].
  destruct (Ascii.eqb d "0" && negb (String.eqb ds' EmptyString)) eqn:Hz; [done|].
  destruct (continues_number r0) eqn:Hc; [done|].
  destruct (DecimalString.NilEmpty.uint_of_string (String d ds')) eqn:Hu; [|done].
  intros [= <- ->].
  rewrite (span_digits_app _ _ _ _ _ Hs). rewrite Hz, continues_number_app, Hc, Hu. done.
Qed.

Lemma parse_number_app s t j c r :
  parse_number s = Some (j, String c r) ->
  parse_number (s +:+ t) = Some (j, String c r +:+ t).
Proof.
  destruct s as [|a s]; [done|]. simpl.
  destruct (Ascii.eqb a "-"); intros H.
  - by apply parse_digits_app.
  - by apply (parse_digits_app false (String a s)).
Qed.

Lemma parse_number_is_number s j r :
  parse_number s = Some (j, r) -> is_number j = true.
Proof.
  assert (H : forall neg s, parse_digits neg s = Some (j, r) -> is_number j = true).
  { intros neg s'. unfold parse_digits. destruct (span_digits s') as [ds r0].
    destruct ds as [|d ds']; [done|].
    destruct (_ && _); [done|]. destruct (continues_number r0); [done|].
    destruct (DecimalString.NilEmpty.uint_of_string _); [|done]. by intros [= <- _]. }
  destruct s as [|a s]; [done|]. simpl. destruct (Ascii.eqb a "-"); apply H.
Qed.

Lemma consume_whitespace_nonempty s c r :
  consume_whitespace s = String c r -> s <> EmptyString.
Proof. by destruct s. Qed.

Lemma parse_app fuel :
  (forall s t j r,
     parse_json fuel s = Some (j, r) ->
     (is_number j = true -> r <> EmptyString) ->
     parse_json fuel (s +:+ t) = Some (j, r +:+ t))
  /\ (forall s t vs r,
        parse_items fuel s = Some (vs, r) ->
        parse_items fuel (s +:+ t) = Some (vs, r +:+ t))
  /\ (forall s t ms r,
        parse_members fuel s = Some (ms, r) ->
        parse_members fuel (s +:+ t) = Some (ms, r +:+ t)).
Proof.
  induction fuel as [|fuel (IHj & IHi & IHm)]; [done|].
  split; [|split].
  - intros s t j r. cbn [parse_json].
    destruct (consume_whitespace s) as [|c r0] eqn:Hws; [done|].
    rewrite (consume_whitespace_app _ t _ _ Hws).
    destruct (Ascii.eqb c "-" || is_digit c).
    { intros H Hnum. destruct r as [|c' r'].
      - exfalso. apply Hnum; [|done]. by apply parse_number_is_number in H.
      - by apply (parse_number_app (String c r0)). }
    destruct (Ascii.eqb c "t"); [intros H _; by apply expect_app|].
    destruct (Ascii.eqb c "f"); [intros H _; by apply expect_app|].
    destruct (Ascii.eqb c "n"); [intros H _; by apply expect_app|].
    destruct (Ascii.eqb c dquote).
    { destruct (parse_string r0) as [[v r']|] eqn:Hs; [|done].
      intros [= <- <-] _. by rewrite (parse_string_app _ t _ _ Hs). }
    destruct (Ascii.eqb c "[").
    { destruct (consume_whitespace r0) as [|c1 r1] eqn:Hws1; [done|].
      rewrite (consume_whitespace_app _ t _ _ Hws1).
      destruct (Ascii.eqb c1 "]"); [by intros [= <- <-]|].
      destruct (parse_items fuel (String c1 r1)) as [[vs r']|] eqn:Hi; [|done].
      intros [= <- <-] _.
      change (String c1 (r1 +:+ t)) with (String c1 r1 +:+ t).
      by rewrite (IHi _ t _ _ Hi). }
    destruct (Ascii.eqb c "{"); [|done].
    destruct (consume_whitespace r0) as [|c1 r1] eqn:Hws1; [done|].
    rewrite (consume_whitespace_app _ t _ _ Hws1).
    destruct (Ascii.eqb c1 "}"); [by intros [= <- <-]|].
    destruct (parse_members fuel (String c1 r1)) as [[ms r']|] eqn:Hm; [|done].
    intros [= <- <-] _.
    change (String c1 (r1 +:+ t)) with (String c1 r1 +:+ t).
    by rewrite (IHm _ t _ _ Hm).
  - intros s t vs r. cbn [parse_items].
    destruct (parse_json fuel s) as [[v r1]|] eqn:Hj; [|done].
    destruct (consume_whitespace r1) as [|c r'] eqn:Hws; [done|].
    rewrite (IHj s t v r1 Hj) by (intros _; by eapply consume_whitespace_nonempty).
    rewrite (consume_whitespace_app _ t _ _ Hws).
    destruct (Ascii.eqb c "]"); [by intros [= <- <-]|].
    destruct (Ascii.eqb c ","); [|done].
    destruct (parse_items fuel r') as [[vs' r'']|] eqn:Hi; [|done].
    intros [= <- <-]. by rewrite (IHi _ t _ _ Hi).
  - intros s t ms r. cbn [parse_members].
    destruct (consume_whitespace s) as [|q r0] eqn:Hws; [done|].
    rewrite (consume_whitespace_app _ t _ _ Hws).
    destruct (Ascii.eqb q dquote); [|done].
    destruct (parse_string r0) as [[k r1]|] eqn:Hs; [|done].
    rewrite (parse_string_app _ t _ _ Hs).
    destruct (consume_whitespace r1) as [|c r2] eqn:Hws1; [done|].
    rewrite (consume_whitespace_app _ t _ _ Hws1).
    destruct (Ascii.eqb c ":"); [|done].
    destruct (parse_json fuel r2) as [[v r3]|] eqn:Hj; [|done].
    destruct (consume_whitespace r3) as [|d r4] eqn:Hws2; [done|].
    rewrite (IHj r2 t v r3 Hj) by (intros _; by eapply consume_whitespace_nonempty).
    rewrite (consume_whitespace_app _ t _ _ Hws2).
    destruct (Ascii.eqb d "}"); [by intros [= <- <-]|].
    destruct (Ascii.eqb d ","); [|done].
    destruct (parse_members fuel r4) as [[ms' r5]|] eqn:Hm; [|done].
    intros [= <- <-]. by rewrite (IHm _ t _ _ Hm).
Qed.

Lemma parse_mono fuel : forall fuel', (fuel <= fuel')%nat ->
  (forall s x, parse_json fuel s = Some x -> parse_json fuel' s = Some x)
  /\ (forall s x, parse_items fuel s = Some x -> parse_items fuel' s = Some x)
  /\ (forall s x, parse_members fuel s = Some x -> parse_members fuel' s = Some x).
Proof.
  induction fuel as [|fuel IH]; [done|].
  intros [|fuel'] Hle; [lia|].
  destruct (IH fuel' ltac:(lia)) as (IHj & IHi & IHm).
  split; [|split].
  - intros s x. cbn [parse_json].
    destruct (consume_whitespace s) as [|c r0]; [done|].
    destruct (Ascii.eqb c "-" || is_digit c); [done|].
    destruct (Ascii.eqb c "t"); [done|].
    destruct (Ascii.eqb c "f"); [done|].
    destruct (Ascii.eqb c "n"); [done|].
    destruct (Ascii.eqb c dquote); [done|].
    destruct (Ascii.eqb c "[").
    { destruct (consume_whitespace r0) as [|c1 r1]; [done|].
      destruct (Ascii.eqb c1 "]"); [done|].
      destruct (parse_items fuel (String c1 r1)) as [y|] eqn:Hi; [|done].
      by rewrite (IHi _ _ Hi). }
    destruct (Ascii.eqb c "{"); [|done].
    destruct (consume_whitespace r0) as [|c1 r1]; [done|].
    destruct (Ascii.eqb c1 "}"); [done|].
    destruct (parse_members fuel (String c1 r1)) as [y|] eqn:Hm; [|done].
    by rewrite (IHm _ _ Hm).
  - intros s x. cbn [parse_items].
    destruct (parse_json fuel s) as [[v r1]|] eqn:Hj; [|done].
    rewrite (IHj _ _ Hj).
    destruct (consume_whitespace r1) as [|c r']; [done|].
    destruct (Ascii.eqb c "]"); [done|].
    destruct (Ascii.eqb c ","); [|done].
    destruct (parse_items fuel r') as [y|] eqn:Hi; [|done].
    by rewrite (IHi _ _ Hi).
  - intros s x. cbn [parse_members].
    destruct (consume_whitespace s) as [|q r0]; [done|].
    destruct (Ascii.eqb q dquote); [|done].
    destruct (parse_string r0) as [[k r1]|]; [|done].
    destruct (consume_whitespace r1) as [|c r2]; [done|].
    destruct (Ascii.eqb c ":"); [|done].
    destruct (parse_json fuel r2) as [[v r3]|] eqn:Hj; [|done].
    rewrite (IHj _ _ Hj).
    destruct (consume_whitespace r3) as [|d r4]; [done|].
    destruct (Ascii.eqb d "}"); [done|].
    destruct (Ascii.eqb d ","); [|done].
    destruct (parse_members fuel r4) as [y|] eqn:Hm; [|done].
    by rewrite (IHm _ _ Hm).
Qed.

Lemma parse_json_mono fuel fuel' s x :
  (fuel <= fuel')%nat -> parse_json fuel s = Some x -> parse_json fuel' s = Some x.
Proof. intros Hle. by apply (parse_mono fuel fuel' Hle). Qed.

Lemma parse_items_mono fuel fuel' s x :
  (fuel <= fuel')%nat -> parse_items fuel s = Some x -> parse_items fuel' s = Some x.
Proof. intros Hle. by apply (parse_mono fuel fuel' Hle). Qed.

Lemma parse_members_mono fuel fuel' s x :
  (fuel <= fuel')%nat -> parse_members fuel s = Some x -> parse_members fuel' s = Some x.
Proof. intros Hle. by apply (parse_mono fuel fuel' Hle). Qed.

Lemma nzhead_not_D0 d x : nzhead d <> D0 x.
Proof. induction d; simpl; try done. Qed.

Lemma pos_to_uint_head p x : Pos.to_uint p <> D0 x.
Proof.
  intros H.
  assert (Hn : unorm (Pos.to_uint p) = Pos.to_uint p).
  { rewrite <- DecimalPos.Unsigned.to_of, DecimalPos.Unsigned.of_to. reflexivity. }
  rewrite H in Hn. unfold unorm in Hn. simpl in Hn.
  destruct (nzhead x) eqn:Hx; try discriminate.
  - injection Hn as <-. by apply (DecimalPos.Unsigned.to_uint_nonzero p).
  - exact (nzhead_not_D0 _ _ Hx).
Qed.

Lemma continues_number_no_digit s : continues_number s = false -> no_digit_ahead s = true.
Proof.
  destruct s as [|c s]; [done|]. simpl. destruct (is_digit c); done.
Qed.

Lemma span_digits_string_of_uint d rest :
  no_digit_ahead rest = true ->
  span_digits (DecimalString.NilEmpty.string_of_uint d +:+ rest)
  = (DecimalString.NilEmpty.string_of_uint d, rest).
Proof.
  intros Hrest. induction d; simpl; try (by rewrite IHd).
  destruct rest as [|c r]; [done|]. simpl in *.
  by destruct (is_digit c).
Qed.

Lemma string_of_uint_head p :
  exists c ds, DecimalString.NilEmpty.string_of_uint (Pos.to_uint p) = String c ds
    /\ Ascii.eqb c "0" = false /\ is_digit c = true.
Proof.
  pose proof (pos_to_uint_head p) as Hhead.
  pose proof (DecimalPos.Unsigned.to_uint_nonnil p) as Hnil.
  destruct (Pos.to_uint p) as [|d|d|d|d|d|d|d|d|d|d] eqn:Hd; try done;
    try (by destruct (Hhead d));
    eexists _, _; (split; [reflexivity|split; reflexivity]).
Qed.

Lemma parse_digits_string_of_uint neg p rest :
  continues_number rest = false ->
  parse_digits neg (DecimalString.NilEmpty.string_of_uint (Pos.to_uint p) +:+ rest)
  = Some (JNumber (if neg then Z.neg p else Z.pos p), rest).
Proof.
  intros Hrest. unfold parse_digits.
  rewrite span_digits_string_of_uint by (by apply continues_number_no_digit).
  pose proof (DecimalString.NilEmpty.usu (Pos.to_uint p)) as Husu.
  assert (Hval : Z.of_uint (Pos.to_uint p) = Z.pos p).
  { unfold Z.of_uint. by rewrite DecimalPos.Unsigned.of_to. }
  destruct (string_of_uint_head p) as (c & ds & Heq & Hc & _).
  rewrite Heq in *. rewrite Hc, Hrest, Husu, Hval. by destruct neg.
Qed.

Lemma dump_number_pos p :
  DecimalString.NilZero.string_of_uint (Pos.to_uint p)
  = DecimalString.NilEmpty.string_of_uint (Pos.to_uint p).
Proof.
  pose proof (DecimalPos.Unsigned.to_uint_nonnil p) as Hnil.
  unfold DecimalString.NilZero.string_of_uint. by destruct (Pos.to_uint p).
Qed.

Lemma parse_number_dump n rest :
  continues_number rest = false ->
  parse_number (dump_number n +:+ rest) = Some (JNumber n, rest).
Proof.
  intros Hrest. unfold dump_number. destruct n as [|p|p]; simpl Z.to_int.
  - change (parse_digits false
              (DecimalString.NilEmpty.string_of_uint (D0 Nil) +:+ rest)
            = Some (JNumber 0, rest)).
    unfold parse_digits.
    rewrite span_digits_string_of_uint by (by apply continues_number_no_digit).
    cbn [DecimalString.NilEmpty.string_of_uint]. by rewrite Hrest.
  - unfold DecimalString.NilZero.string_of_int. rewrite dump_number_pos.
    pose proof (parse_digits_string_of_uint false p rest Hrest) as H.
    destruct (string_of_uint_head p) as (c & ds & Heq & Hc & Hdig).
    rewrite Heq in *. rewrite string_app_cons in *. cbn [parse_number].
    assert (Ascii.eqb c "-" = false) as ->.
    { destruct (Ascii.eqb_spec c "-") as [->|]; done. }
    exact H.
  - unfold DecimalString.NilZero.string_of_int. rewrite dump_number_pos.
    exact (parse_digits_string_of_uint true p rest Hrest).
Qed.

(** The first character of the text of a number. *)
Lemma dump_number_head n :
  exists c s, dump_number n = String c s
    /\ (Ascii.eqb c "-" || is_digit c) = true
    /\ is_separator c = false.
Proof.
  unfold dump_number. destruct n as [|p|p]; simpl Z.to_int.
  - by exists "0"%char, EmptyString.
  - unfold DecimalString.NilZero.string_of_int. rewrite dump_number_pos.
    destruct (string_of_uint_head p) as (c & ds & Heq & Hc & Hdig).
    exists c, ds. split; [done|]. rewrite Hdig. split; [by rewrite orb_true_r|].
    unfold is_digit, is_separator in *.
    destruct c as [[] [] [] [] [] [] [] []]; done.
  - eexists _, _. split; [reflexivity|split; reflexivity].
Qed.

Lemma dump_array_cons v l :
  dump (JArray (v :: l)) = "[" +:+ dump v +:+ dump_more_items l +:+ "]".
Proof.
  cbn [dump]. rewrite string_app_assoc.
  assert (H : forall l',
    (fix more (l0 : list Json) : string :=
       match l0 with
       | [] => EmptyString
       | v0 :: l1 => ", " +:+ dump v0 +:+ more l1
       end) l' = dump_more_items l').
  { induction l' as [|x l' IH]; [done|]. cbn [dump_more_items]. by rewrite IH. }
  by rewrite H.
Qed.

Lemma dump_object_cons k v l :
  dump (JObject ((k, v) :: l)) =
  "{" +:+ dump_string k +:+ ": " +:+ dump v +:+ dump_more_members l +:+ "}".
Proof.
  cbn [dump]. rewrite !string_app_assoc.
  assert (H : forall l',
    (fix more (l0 : list (string * Json)) : string :=
       match l0 with
       | [] => EmptyString
       | (k0, v0) :: l1 => ", " +:+ dump_string k0 +:+ ": " +:+ dump v0 +:+ more l1
       end) l' = dump_more_members l').
  { induction l' as [|[k' x] l' IH]; [done|]. cbn [dump_more_members]. by rewrite IH. }
  by rewrite H.
Qed.

Lemma wf_json_array l : wf_json (JArray l) = true <-> Forall (fun v => wf_json v = true) l.
Proof.
  cbn [wf_json]. rewrite forallb_forall, Forall_forall.
  split; intros H x Hx; apply H; by apply list_elem_of_In.
Qed.

Lemma wf_json_object m :
  wf_json (JObject m) = true <->
  keys_increasing m = true /\ Forall (fun kv => wf_json kv.2 = true) m.
Proof.
  cbn [wf_json]. rewrite andb_true_iff.
  apply and_iff_compat_l.
  induction m as [|[k v] m IH]; [by split; [constructor|]|].
  rewrite Forall_cons, andb_true_iff, IH. done.
Qed.

(** *** The keys of an object *)

Lemma string_compare_lt_trans a b c :
  String.compare a b = Lt -> String.compare b c = Lt -> String.compare a c = Lt.
Proof.
  intros H1 H2.
  apply OrderedTypeEx.String_as_OT.cmp_lt in H1, H2.
  apply OrderedTypeEx.String_as_OT.cmp_lt.
  by eapply OrderedTypeEx.String_as_OT.lt_trans.
Qed.

Lemma string_compare_gt a b : String.compare a b = Lt -> String.compare b a = Gt.
Proof. intros H. rewrite String.compare_antisym, H. done. Qed.

Lemma obj_insert_above k v m :
  keys_below k m -> obj_insert k v m = m ++ [(k, v)].
Proof.
  induction 1 as [|[k' v'] m Hk Hm IH]; [done|].
  simpl in *. rewrite (string_compare_gt _ _ Hk). by rewrite IH.
Qed.

Lemma keys_increasing_cons k v m :
  keys_increasing ((k, v) :: m) = true ->
  keys_below k [] /\ keys_increasing m = true /\
  Forall (fun kv => String.compare k kv.1 = Lt) m.
Proof.
  revert k v. induction m as [|[k' v'] m IH]; intros k v H.
  - split; [constructor|]. split; [done|constructor].
  - cbn [keys_increasing] in H. apply andb_true_iff in H as [Hlt Hrest].
    destruct (String.compare k k') eqn:Hc; try done.
    split; [constructor|]. split; [done|].
    constructor; [done|].
    destruct (IH k' v' Hrest) as (_ & _ & Hall).
    eapply Forall_impl; [exact Hall|]. intros [k'' v''] Hk''. simpl in *.
    by eapply string_compare_lt_trans.
Qed.

Lemma fold_insert_increasing m : forall acc,
  keys_increasing m = true ->
  Forall (fun kv => keys_below kv.1 acc) m ->
  fold_left (fun a kv => obj_insert kv.1 kv.2 a) m acc = acc ++ m.
Proof.
  induction m as [|[k v] m IH]; intros acc Hinc Hbelow; simpl.
  - by rewrite app_nil_r.
  - apply Forall_cons in Hbelow as [Hk Hm].
    destruct (keys_increasing_cons _ _ _ Hinc) as (_ & Hinc' & Hall).
    rewrite obj_insert_above by done.
    rewrite IH; [by rewrite <- app_assoc|done|].
    apply Forall_forall. intros [k' v'] Hin. simpl.
    unfold keys_below. apply Forall_app. split.
    + rewrite Forall_forall in Hm. by apply (Hm (k', v')).
    + constructor; [|constructor]. simpl.
      rewrite Forall_forall in Hall. by apply (Hall (k', v')).
Qed.

Lemma obj_of_members_increasing m :
  keys_increasing m = true -> obj_of_members m = m.
Proof.
  intros H. unfold obj_of_members. rewrite fold_insert_increasing; [done|done|].
  apply Forall_forall. intros; constructor.
Qed.

Lemma parse_json_space fuel s : parse_json fuel (String " " s) = parse_json fuel s.
Proof. by destruct fuel. Qed.

Lemma parse_items_space fuel s : parse_items fuel (String " " s) = parse_items fuel s.
Proof. destruct fuel; [done|]. cbn [parse_items]. by rewrite parse_json_space. Qed.

Lemma dump_string_app k s :
  dump_string k +:+ s = String dquote (dump_chars k +:+ String dquote s).
Proof. unfold dump_string. by rewrite string_app_cons, string_app_assoc. Qed.

(** The first character of the text of a value: no separator and no
    closing bracket. *)
Lemma dump_head j :
  exists c s, dump j = String c s
    /\ is_separator c = false
    /\ Ascii.eqb c "]" = false
    /\ Ascii.eqb c "}" = false.
Proof.
  destruct j as [|[]|n|s|[|v l]|[|[k v] l]];
    try (eexists _, _; split; [reflexivity|done]).
  destruct (dump_number_head n) as (c & s & Heq & Hc & Hsep).
  exists c, s. split; [done|]. split; [done|].
  destruct c as [[] [] [] [] [] [] [] []]; done.
Qed.

Lemma dump_length j : (1 <= String.length (dump j))%nat.
Proof. destruct (dump_head j) as (c & s & -> & _). simpl. lia. Qed.

Lemma consume_whitespace_dump j s :
  exists c r, consume_whitespace (dump j +:+ s) = String c r
    /\ dump j +:+ s = String c r
    /\ Ascii.eqb c "]" = false /\ Ascii.eqb c "}" = false.
Proof.
  destruct (dump_head j) as (c & r & Heq & Hsep & H1 & H2).
  exists c, (r +:+ s). rewrite Heq, string_app_cons.
  by rewrite consume_whitespace_stop.
Qed.

Lemma continues_number_more_items l rest :
  continues_number (dump_more_items l +:+ String "]" rest) = false.
Proof. by destruct l. Qed.

Lemma continues_number_more_members l rest :
  continues_number (dump_more_members l +:+ String "}" rest) = false.
Proof. by destruct l as [|[k v] l]. Qed.

Lemma parse_items_dump l : forall v fuel rest,
  Forall reads_back (v :: l) ->
  Forall (fun x => wf_json x = true) (v :: l) ->
  (1 + String.length (dump v) + String.length (dump_more_items l) <= fuel)%nat ->
  parse_items fuel (dump v +:+ dump_more_items l +:+ String "]" rest)
  = Some (v :: l, rest).
Proof.
  induction l as [|v' l IH]; intros v fuel rest Hread Hwf Hfuel;
    apply Forall_cons in Hread as [Hv Hl]; apply Forall_cons in Hwf as [Hwv Hwl];
    (destruct fuel as [|fuel]; [lia|]); cbn [parse_items].
  - rewrite (Hv Hwv) by (done || lia). by cbn.
  - rewrite (Hv Hwv); [|lia|apply continues_number_more_items].
    cbn [dump_more_items]. string_norm.
    rewrite consume_whitespace_stop by done.
    change (Ascii.eqb "," "]") with false. change (Ascii.eqb "," ",") with true.
    cbn iota. rewrite parse_items_space.
    rewrite IH; [done|done|done|].
    cbn [dump_more_items] in Hfuel. rewrite !string_length_app in Hfuel.
    simpl in Hfuel. pose proof (dump_length v). lia.
Qed.

Lemma parse_members_space fuel s :
  parse_members fuel (String " " s) = parse_members fuel s.
Proof. by destruct fuel. Qed.

Lemma parse_members_dump l : forall k v fuel rest,
  Forall (fun kv => reads_back kv.2) ((k, v) :: l) ->
  Forall (fun kv => wf_json kv.2 = true) ((k, v) :: l) ->
  (1 + String.length (dump_string k) + 2 + String.length (dump v)
   + String.length (dump_more_members l) <= fuel)%nat ->
  parse_members fuel
    (String dquote (dump_chars k +:+ String dquote
       (String ":" (String " " (dump v +:+ dump_more_members l +:+ String "}" rest)))))
  = Some ((k, v) :: l, rest).
Proof.
  induction l as [|[k' v'] l IH]; intros k v fuel rest Hread Hwf Hfuel;
    apply Forall_cons in Hread as [Hv Hl]; apply Forall_cons in Hwf as [Hwv Hwl];
    (destruct fuel as [|fuel]; [lia|]); cbn [parse_members];
    rewrite consume_whitespace_stop by done;
    change (Ascii.eqb dquote dquote) with true; cbn iota;
    rewrite parse_string_dump;
    rewrite consume_whitespace_stop by done;
    change (Ascii.eqb ":" ":") with true; cbn iota;
    rewrite parse_json_space; simpl in Hv, Hwv.
  - rewrite (Hv Hwv) by (done || lia). by cbn.
  - rewrite (Hv Hwv); [|lia|apply continues_number_more_members].
    cbn [dump_more_members]. rewrite dump_string_app. string_norm.
    rewrite consume_whitespace_stop by done.
    change (Ascii.eqb "," "}") with false. change (Ascii.eqb "," ",") with true.
    cbn iota. rewrite parse_members_space.
    rewrite IH; [done|done|done|].
    cbn [dump_more_members] in Hfuel. rewrite !string_length_app in Hfuel.
    simpl in Hfuel. unfold dump_string. simpl. lia.
Qed.

Lemma parse_json_dump j : reads_back j.
Proof.
  induction j as [|b|n|s|items IH|members IH] using Json_nested_ind;
    intros Hwf fuel rest Hfuel Hrest.
  - destruct fuel; [simpl in Hfuel; lia|]. reflexivity.
  - destruct fuel; [destruct b; simpl in Hfuel; lia|]. by destruct b.
  - destruct fuel; [pose proof (dump_length (JNumber n)); lia|].
    destruct (dump_number_head n) as (c & s & Heq & Hc & Hsep).
    cbn [parse_json dump]. rewrite Heq, string_app_cons.
    rewrite consume_whitespace_stop by done. rewrite Hc.
    rewrite <- string_app_cons, <- Heq. by apply parse_number_dump.
  - destruct fuel; [pose proof (dump_length (JString s)); lia|].
    cbn [parse_json dump]. rewrite dump_string_app.
    rewrite consume_whitespace_stop by done.
    change (Ascii.eqb dquote "-" || is_digit dquote) with false.
    change (Ascii.eqb dquote "t") with false.
    change (Ascii.eqb dquote "f") with false.
    change (Ascii.eqb dquote "n") with false.
    change (Ascii.eqb dquote dquote) with true. cbn iota.
    by rewrite parse_string_dump.
  - destruct fuel; [pose proof (dump_length (JArray items)); lia|].
    destruct items as [|v l]; [reflexivity|].
    rewrite dump_array_cons in *. string_norm. cbn [parse_json].
    rewrite consume_whitespace_stop by done.
    change (Ascii.eqb "[" "-" || is_digit "[") with false.
    change (Ascii.eqb "[" "t") with false.
    change (Ascii.eqb "[" "f") with false.
    change (Ascii.eqb "[" "n") with false.
    change (Ascii.eqb "[" dquote) with false.
    change (Ascii.eqb "[" "[") with true. cbn iota.
    destruct (consume_whitespace_dump v (dump_more_items l +:+ String "]" rest))
      as (c & r & -> & Heq & -> & _).
    rewrite <- Heq. rewrite parse_items_dump; [done|done|by apply wf_json_array|].
    string_norm_in Hfuel. simpl in Hfuel. rewrite !string_length_app in Hfuel.
    simpl in Hfuel. lia.
  - destruct fuel; [pose proof (dump_length (JObject members)); lia|].
    destruct members as [|[k v] l]; [reflexivity|].
    apply wf_json_object in Hwf as [Hinc Hwf].
    rewrite dump_object_cons in *. rewrite dump_string_app in *.
    string_norm. cbn [parse_json].
    rewrite consume_whitespace_stop by done.
    change (Ascii.eqb "{" "-" || is_digit "{") with false.
    change (Ascii.eqb "{" "t") with false.
    change (Ascii.eqb "{" "f") with false.
    change (Ascii.eqb "{" "n") with false.
    change (Ascii.eqb "{" dquote) with false.
    change (Ascii.eqb "{" "[") with false.
    change (Ascii.eqb "{" "{") with true. cbn iota.
    rewrite consume_whitespace_stop by done.
    change (Ascii.eqb dquote "}") with false. cbn iota.
    rewrite parse_members_dump; [|done|done|].
    + by rewrite obj_of_members_increasing.
    + string_norm_in Hfuel. simpl in Hfuel. rewrite !string_length_app in Hfuel.
      simpl in Hfuel. rewrite !string_length_app in Hfuel. simpl in Hfuel.
      unfold dump_string. simpl. rewrite !string_length_app. simpl. lia.
Qed.

End json11_facts.

(** ** The extraction step: parseBuffer *)

Section parseBuffer_facts.
Import json11 net.
Context {Args : Type}.
Implicit Types p : MessageProcessor Args.

Lemma processor_eta p :
  mkProcessor (m_socket p) (m_buffer p) (m_capacity p) (m_received p)
    (m_handlers p) (m_ingress p) (m_egress p) = p.
Proof. by destruct p. Qed.

(** The loop of [parseBuffer] meets the spec's reading of a value. *)
Lemma enqueue_message_spec p v :
  enqueue_message p v =
  with_ingress p (m_ingress p ++ option_list (message_of_value v)).
Proof.
  unfold enqueue_message, message_of_value, json_index.
  destruct v as [| | | | |m]; simpl;
    try (unfold with_ingress; rewrite app_nil_r; by rewrite processor_eta).
  destruct (obj_find "type" m) as [[| | |t| |]|]; simpl;
    try (unfold with_ingress; rewrite app_nil_r; by rewrite processor_eta).
  done.
Qed.

Lemma fold_enqueue_message vs : forall p,
  fold_left enqueue_message vs p =
  with_ingress p (m_ingress p ++ omap message_of_value vs).
Proof.
  induction vs as [|v vs IH]; intros p; simpl.
  - unfold with_ingress. rewrite app_nil_r. by rewrite processor_eta.
  - rewrite IH, enqueue_message_spec. unfold with_ingress; simpl.
    f_equal. rewrite <- app_assoc. f_equal.
    by destruct (message_of_value v).
Qed.

Lemma parse_multi_nil : parse_multi EmptyString = ([], EmptyString).
Proof. reflexivity. Qed.

(** C1.  When the parse of the whole buffer fails ([parse_multi] leaves an
    error text), [parseBuffer] changes nothing: no message is extracted,
    nothing is added to the inbound queue, and the buffer keeps its
    content. *)
Theorem parseBuffer_failed_parse_unchanged p :
  (parse_multi (m_buffer p)).2 <> EmptyString ->
  parseBuffer p = p.
Proof.
  intros Herr. unfold parseBuffer.
  destruct (String.eqb (m_buffer p) EmptyString); [done|].
  destruct (parse_multi (m_buffer p)) as [messages json_error]; simpl in *.
  destruct json_error; [done|]. done.
Qed.

(** C4.  When the buffer parses as a sequence of values, [parseBuffer]
    appends to the inbound queue, in the order of the values, the message
    of every value that is an object with a string under [type] (its
    payload the value under [entity], null when absent), drops every
    other value without a trace, and empties the buffer. *)
Theorem parseBuffer_parsed_values p vs :
  parse_multi (m_buffer p) = (vs, EmptyString) ->
  parseBuffer p =
  with_ingress (with_buffer p EmptyString)
    (m_ingress p ++ omap message_of_value vs).
Proof.
  intros Hparse. unfold parseBuffer.
  destruct (String.eqb (m_buffer p) EmptyString) eqn:Hempty.
  - apply string_eqb_nil in Hempty. rewrite Hempty, parse_multi_nil in Hparse.
    injection Hparse as <-. simpl. unfold with_ingress, with_buffer; simpl.
    rewrite app_nil_r, <- Hempty. by rewrite processor_eta.
  - rewrite Hparse. simpl. by rewrite fold_enqueue_message.
Qed.

End parseBuffer_facts.

(** ** Registration and dispatch *)

Section dispatch_facts.
Import json11 net.
Context {Args : Type}.
Implicit Types p : MessageProcessor Args.
Implicit Types m : gmap string (list (Handler Args)).

Lemma subscript_fst m type : (subscript m type).1 = default [] (m !! type).
Proof. unfold subscript. by destruct (m !! type). Qed.

Lemma subscript_lookup m type type' :
  default [] ((subscript m type).2 !! type') = default [] (m !! type').
Proof.
  unfold subscript. destruct (m !! type) as [hs|] eqn:Hm; [done|].
  cbn [snd]. destruct (decide (type = type')) as [Heq|Hne].
  - subst type'. rewrite lookup_insert_eq. by rewrite Hm.
  - by rewrite lookup_insert_ne.
Qed.

Lemma registered_with_handlers p m type :
  registered type (with_handlers p m) = default [] (m !! type).
Proof. reflexivity. Qed.

Lemma fold_send msgs : forall p,
  fold_left (fun q msg => send msg.1 msg.2 q) msgs p =
  with_egress p (m_egress p ++ msgs).
Proof.
  induction msgs as [|[t e] msgs IH]; intros p; simpl.
  - unfold with_egress. rewrite app_nil_r. by destruct p.
  - rewrite IH. unfold send, with_egress; simpl. by rewrite <- app_assoc.
Qed.

Lemma call_handlers_spec hs entity args : forall p tr,
  call_handlers hs entity args p tr =
  (with_egress p (m_egress p ++ flat_map (fun h => handler_body h entity args) hs),
   tr ++ map (fun h => Called (handler_name h) (m_socket p) entity args) hs).
Proof.
  induction hs as [|h hs IH]; intros p tr; simpl.
  - rewrite !app_nil_r. unfold with_egress. by destruct p.
  - rewrite IH, fold_send. unfold with_egress; simpl.
    by rewrite <- !app_assoc.
Qed.

Lemma events_of_ext this args p p' msg :
  (forall type, registered type p' = registered type p) ->
  events_of this args p' msg = events_of this args p msg.
Proof. intros H. unfold events_of. by rewrite H. Qed.

Lemma replies_of_ext args p p' msg :
  (forall type, registered type p' = registered type p) ->
  replies_of args p' msg = replies_of args p msg.
Proof. intros H. unfold replies_of. by rewrite H. Qed.

Lemma flat_map_ext_all {A B} (f g : A -> list B) l :
  (forall x, f x = g x) -> flat_map f l = flat_map g l.
Proof. intros H. induction l as [|x l IH]; simpl; [done|]. by rewrite H, IH. Qed.

(** What the loop of [dispatch] computes, from any point of the queue. *)
Lemma dispatch_loop_spec args queue : forall p tr,
  dispatch_loop args queue p tr =
  (mkProcessor (m_socket p) (m_buffer p) (m_capacity p) (m_received p)
     (touched queue (m_handlers p)) []
     (m_egress p ++ flat_map (replies_of args p) queue),
   tr ++ flat_map (events_of (m_socket p) args p) queue).
Proof.
  induction queue as [|[type entity] rest IH]; intros p tr.
  - simpl. by rewrite !app_nil_r.
  - cbn [dispatch_loop].
    destruct (subscript (m_handlers p) type) as [hs m1] eqn:Hsub.
    rewrite call_handlers_spec. rewrite IH. cbn.
    assert (Hhs : hs = registered type p).
    { unfold registered. rewrite <- subscript_fst. by rewrite Hsub. }
    assert (Hreg : forall type',
      registered type'
        (mkProcessor (m_socket p) (m_buffer p) (m_capacity p) (m_received p) m1 rest
           (m_egress p ++ flat_map (fun h => handler_body h entity args) hs))
      = registered type' p).
    { intros type'. unfold registered; simpl.
      replace m1 with (subscript (m_handlers p) type).2 by (by rewrite Hsub).
      apply subscript_lookup. }
    f_equal.
    + f_equal.
      * unfold touched. simpl. by rewrite Hsub.
      * rewrite <- app_assoc. f_equal. unfold replies_of at 2. simpl.
        rewrite <- Hhs. f_equal.
        apply flat_map_ext_all. intros msg. by apply replies_of_ext.
    + rewrite <- !app_assoc. f_equal. unfold events_of at 2. simpl.
      rewrite <- Hhs, <- app_assoc. f_equal. f_equal.
      apply flat_map_ext_all. intros msg. by apply events_of_ext.
Qed.

Lemma registered_addHandler type h p type' :
  registered type' (addHandler type h p) =
  if decide (type = type') then registered type p ++ [h] else registered type' p.
Proof.
  unfold addHandler, registered.
  destruct (subscript (m_handlers p) type) as [hs m1] eqn:Hsub. simpl.
  assert (hs = default [] (m_handlers p !! type)) as ->.
  { rewrite <- subscript_fst. by rewrite Hsub. }
  destruct (decide (type = type')) as [->|Hne].
  - by rewrite lookup_insert_eq.
  - rewrite lookup_insert_ne by done.
    replace m1 with (subscript (m_handlers p) type).2 by (by rewrite Hsub).
    apply subscript_lookup.
Qed.

Lemma registered_fold_addHandler type hs : forall p,
  registered type (fold_left (fun q h => addHandler type h q) hs p) =
  registered type p ++ hs.
Proof.
  induction hs as [|h hs IH]; intros p; simpl.
  - by rewrite app_nil_r.
  - rewrite IH, registered_addHandler.
    destruct (decide (type = type)); [|done]. by rewrite <- app_assoc.
Qed.

Lemma m_socket_fold_addHandler type hs : forall p,
  m_socket (fold_left (fun q h => addHandler type h q) hs p) = m_socket p.
Proof.
  induction hs as [|h hs IH]; intros p; simpl; [done|].
  rewrite IH. unfold addHandler. by destruct (subscript _ _).
Qed.

(** C3.  [dispatch] empties the inbound queue front first; its record of
    calls is, message after message in queue order, one call of every
    handler registered for the type of the message, in registration
    order, each with this processor, the payload of the message and the
    context arguments, and then the pop of that message; the replies of
    the handlers join the outbound queue in the same order.  In
    particular, after [hs] has been registered under a type on a new
    processor, one message of that type calls exactly the handlers of
    [hs], once each and in that order. *)
Theorem dispatch_calls_registered_handlers_in_order args p :
  m_ingress (dispatch args p).1 = []
  /\ (dispatch args p).2 =
     flat_map (events_of (m_socket p) args p) (m_ingress p)
  /\ m_egress (dispatch args p).1 =
     m_egress p ++ flat_map (replies_of args p) (m_ingress p)
  /\ forall socket type entity hs,
       let p0 := fold_left (fun q h => addHandler type h q) hs (new_processor socket) in
       (dispatch args (with_ingress p0 [(type, entity)])).2 =
       map (fun h => Called (handler_name h) socket entity args) hs
       ++ [Popped type entity].
Proof.
  unfold dispatch. rewrite dispatch_loop_spec. cbn [fst snd m_ingress m_egress].
  split; [done|]. split; [done|]. split; [done|].
  intros socket type entity hs. rewrite dispatch_loop_spec.
  set (p0 := fold_left _ hs _). simpl.
  rewrite app_nil_r. unfold events_of; simpl.
  replace (registered type (with_ingress p0 [(type, entity)]))
    with (registered type p0) by reflexivity.
  unfold p0. rewrite registered_fold_addHandler, m_socket_fold_addHandler.
  reflexivity.
Qed.

Lemma subscript_snd_lookup m type type' :
  (subscript m type).2 !! type' =
  match m !! type' with
  | Some hs => Some hs
  | None => if decide (type = type') then Some [] else None
  end.
Proof.
  unfold subscript. destruct (m !! type) as [hs|] eqn:Hm; cbn [snd].
  - destruct (m !! type') eqn:Hm'; [done|].
    destruct (decide (type = type')) as [Heq|]; [|done].
    subst type'. by rewrite Hm in Hm'.
  - destruct (decide (type = type')) as [Heq|Hne].
    + subst type'. by rewrite lookup_insert_eq, Hm.
    + rewrite lookup_insert_ne by done. by destruct (m !! type').
Qed.

Lemma touched_cons (msg : Message) queue m :
  touched (msg :: queue) m = touched queue (subscript m msg.1).2.
Proof. reflexivity. Qed.

(** The subscript of [dispatch] leaves an entry under every type of the
    queue: the one that was there, or an empty one. *)
Lemma touched_lookup (queue : list Message) : forall m type,
  type ∈ map fst queue ->
  touched queue m !! type = Some (default [] (m !! type)).
Proof.
  assert (Hkeep : forall (q : list Message) m type hs,
            m !! type = Some hs -> touched q m !! type = Some hs).
  { induction q as [|[t e] q IH]; intros m type hs Hm; [done|].
    rewrite touched_cons. apply IH. rewrite subscript_snd_lookup. by rewrite Hm. }
  induction queue as [|[t e] queue IH]; intros m type Hin.
  - by apply elem_of_nil in Hin.
  - rewrite touched_cons. cbn [fst].
    destruct (decide (t = type)) as [->|Hne].
    + apply Hkeep. rewrite subscript_snd_lookup. cbn [fst].
      destruct (m !! type); [done|]. by destruct (decide (type = type)).
    + cbn [map fst] in Hin. apply elem_of_cons in Hin as [?|Hin]; [done|].
      rewrite (IH _ _ Hin). rewrite subscript_snd_lookup. cbn [fst].
      destruct (m !! type); [done|]. by destruct (decide (t = type)).
Qed.

(** C9.  A message whose type has no entry in the registry calls no
    handler and sends nothing: its share of the record of [dispatch] is
    its pop alone, and nothing fails; yet the registry is not as before,
    for the subscript has put an empty handler list under the type.
    When the message is alone in the queue, the record is its pop, the
    outbound queue is as before and the registry has gained just that
    entry. *)
Theorem dispatch_unknown_type_inserts_empty_entry args p type entity :
  (type, entity) ∈ m_ingress p ->
  m_handlers p !! type = None ->
  (dispatch args p).2 = flat_map (events_of (m_socket p) args p) (m_ingress p)
  /\ events_of (m_socket p) args p (type, entity) = [Popped type entity]
  /\ replies_of args p (type, entity) = []
  /\ m_handlers (dispatch args p).1 !! type = Some []
  /\ m_handlers (dispatch args p).1 <> m_handlers p
  /\ (m_ingress p = [(type, entity)] ->
      (dispatch args p).2 = [Popped type entity]
      /\ m_egress (dispatch args p).1 = m_egress p
      /\ m_handlers (dispatch args p).1 = <[type := []]> (m_handlers p)).
Proof.
  intros Hin Hnone. unfold dispatch. rewrite dispatch_loop_spec.
  cbn [fst snd m_handlers m_egress app].
  assert (Hentry : touched (m_ingress p) (m_handlers p) !! type = Some []).
  { rewrite touched_lookup; [by rewrite Hnone|].
    apply list_elem_of_fmap. by exists (type, entity). }
  split; [done|]. split; [|split; [|split; [|split]]].
  - unfold events_of, registered; simpl. by rewrite Hnone.
  - unfold replies_of, registered; simpl. by rewrite Hnone.
  - done.
  - intros Heq. rewrite Heq, Hnone in Hentry. done.
  - intros Hq. rewrite Hq. simpl.
    unfold events_of, replies_of, registered, touched, subscript; simpl.
    rewrite Hnone. simpl. by rewrite !app_nil_r.
Qed.

End dispatch_facts.

(** ** The flush path: send and flushSendQueue *)

Section flush_facts.
Import json11 net.
Context {Args : Type}.
Implicit Types p : MessageProcessor Args.
Implicit Types c : Connection Args.
Implicit Types t : Transport.

Lemma string_drop_drop a d s :
  string_drop d (string_drop a s) = string_drop (a + d) s.
Proof.
  revert s. induction a as [|a IH]; intros s; simpl; [done|].
  destruct s as [|x s]; simpl; [by destruct d|]. apply IH.
Qed.

Lemma string_take_drop_drop a d s :
  string_take d (string_drop a s) +:+ string_drop (a + d) s = string_drop a s.
Proof. rewrite <- string_drop_drop. apply string_take_drop. Qed.

Lemma string_drop_all n s : (String.length s <= n)%nat -> string_drop n s = EmptyString.
Proof.
  revert s. induction n as [|n IH]; intros [|x s]; simpl; try done; try lia.
  intros H. apply IH. lia.
Qed.

Lemma string_take_take a b s :
  (a <= b)%nat -> string_take a (string_take b s) = string_take a s.
Proof.
  revert b s. induction a as [|a IH]; intros [|b] [|x s] H; simpl; try done; try lia.
  rewrite IH; [done|lia].
Qed.

Lemma string_length_take n s :
  String.length (string_take n s) = Nat.min n (String.length s).
Proof. revert s. induction n as [|n IH]; intros [|x s]; simpl; try done. by rewrite IH. Qed.

Lemma int_wrap_small z : - 2 ^ 31 <= z < 2 ^ 31 -> int_wrap z = z.
Proof. intros H. unfold int_wrap. rewrite Z.mod_small; lia. Qed.

Lemma to_size_t_small z : 0 <= z < 2 ^ 64 -> to_size_t z = z.
Proof. intros H. unfold to_size_t. by rewrite Z.mod_small. Qed.

(** The envelope is the object with the two members, [entity] before
    [type] in the key order of the map. *)
Lemma envelope_members (m : Message) :
  envelope m = JObject [("entity", m.2); ("type", JString m.1)].
Proof. reflexivity. Qed.

Lemma sys_send_on_send t data :
  on_send (sys_send t data).2 = on_send t.
Proof. reflexivity. Qed.

(** One turn of the inner loop with a successful write: the count of
    bytes still to send goes down by what the socket took. *)
Lemma send_loop_step fuel t encoded_message sent :
  0 <= sent < Z.of_nat (String.length encoded_message) ->
  Z.of_nat (String.length encoded_message) < 2 ^ 31 ->
  send_accepts t ->
  let d := (sys_send t (string_drop (Z.to_nat sent) encoded_message)).1 in
  send_loop (S fuel) t encoded_message sent =
  send_loop fuel (sys_send t (string_drop (Z.to_nat sent) encoded_message)).2
    encoded_message (sent + d)
  /\ 0 < d
  /\ 0 <= Z.of_nat (String.length encoded_message) - (sent + d)
     < Z.of_nat (String.length encoded_message) - sent.
Proof.
  intros Hsent Hsize Hacc d.
  assert (Hd : 0 < d <= Z.of_nat (String.length encoded_message) - sent).
  { unfold d, sys_send; simpl.
    pose proof (Hacc (send_calls t)
      (String.length (string_drop (Z.to_nat sent) encoded_message))) as H.
    rewrite string_length_drop in *. lia. }
  split; [|lia].
  cbn [send_loop]. rewrite to_size_t_small by lia.
  destruct (Z.ltb_spec sent (Z.of_nat (String.length encoded_message))) as [_|?]; [|lia].
  destruct (sys_send t _) as [d' t'] eqn:Hs. simpl in d. subst d.
  destruct (Z.eqb_spec d' (-1)) as [?|_]; [lia|].
  by rewrite int_wrap_small by lia.
Qed.

(** The state of the wire when the inner loop is looked at, for a socket
    in range: all the bytes from [sent] on when it has returned, some of
    them when it is still running. *)
Lemma send_loop_wire fuel : forall t encoded_message sent,
  0 <= sent <= Z.of_nat (String.length encoded_message) ->
  Z.of_nat (String.length encoded_message) < 2 ^ 31 ->
  send_in_range t ->
  match send_loop fuel t encoded_message sent with
  | Returned (t', _) =>
      wire t' = wire t +:+ string_drop (Z.to_nat sent) encoded_message
      /\ on_send t' = on_send t
  | Running (t', _) =>
      exists k, (k < String.length (string_drop (Z.to_nat sent) encoded_message))%nat
        /\ wire t' = wire t +:+
             string_take k (string_drop (Z.to_nat sent) encoded_message)
        /\ on_send t' = on_send t
  end.
Proof.
  induction fuel as [|fuel IH]; intros t enc sent Hsent Hsize Hrange.
  - cbn [send_loop]. rewrite to_size_t_small by lia.
    destruct (Z.ltb_spec sent (Z.of_nat (String.length enc))) as [Hlt|Hge].
    + exists 0%nat. rewrite string_length_drop.
      split; [lia|]. split; [|done].
      destruct (string_drop _ _); simpl; by rewrite string_app_nil_r.
    + rewrite string_drop_all by lia. by rewrite string_app_nil_r.
  - cbn [send_loop]. rewrite to_size_t_small by lia.
    destruct (Z.ltb_spec sent (Z.of_nat (String.length enc))) as [Hlt|Hge].
    2:{ rewrite string_drop_all by lia. by rewrite string_app_nil_r. }
    destruct (sys_send t _) as [d t'] eqn:Hs.
    assert (Hd : d = on_send t (send_calls t)
                   (String.length (string_drop (Z.to_nat sent) enc))).
    { unfold sys_send in Hs. by injection Hs as <- _. }
    assert (Ht' : on_send t' = on_send t /\
                  wire t' = wire t +:+
                    string_take (Z.to_nat d) (string_drop (Z.to_nat sent) enc)).
    { rewrite Hd. unfold sys_send in Hs. by injection Hs as _ <-. }
    destruct Ht' as [Hon Hwire].
    assert (Hrange' : send_in_range t').
    { unfold send_in_range. by rewrite Hon. }
    destruct (Z.eqb_spec d (-1)) as [Hneg|Hpos].
    + specialize (IH t' enc sent Hsent Hsize Hrange').
      rewrite Hwire, Hneg in IH. simpl in IH. rewrite string_app_nil_r in IH.
      destruct (send_loop fuel t' enc sent) as [[t'' f'']|[t'' f'']].
      * destruct IH as [-> ->]. done.
      * destruct IH as (k & Hk & -> & ->). by exists k.
    + pose proof (Hrange (send_calls t)
        (String.length (string_drop (Z.to_nat sent) enc))) as Hr.
      rewrite <- Hd, string_length_drop in Hr.
      destruct Hr as [?|Hr]; [lia|done|].
      rewrite int_wrap_small by lia.
      assert (Hsent' : 0 <= sent + d <= Z.of_nat (String.length enc)) by lia.
      specialize (IH t' enc (sent + d) Hsent' Hsize Hrange').
      rewrite Hwire in IH. rewrite Z2Nat.inj_add in IH by lia.
      destruct (send_loop fuel t' enc (sent + d)) as [[t'' f'']|[t'' f'']].
      * destruct IH as [-> ->]. split; [|done].
        by rewrite string_app_assoc, string_take_drop_drop.
      * destruct IH as (k & Hk & -> & ->).
        rewrite <- string_drop_drop in *.
        exists (Z.to_nat d + k)%nat. split; [|split; [|done]].
        -- rewrite !string_length_drop in *. lia.
        -- rewrite string_app_assoc. f_equal. apply string_take_app_drop.
Qed.

Lemma send_accepts_in_range t : send_accepts t -> send_in_range t.
Proof. intros H k n Hn. right. specialize (H k n Hn). lia. Qed.

(** With a socket that accepts bytes the inner loop returns, and uses no
    more calls of [::send] than there are bytes to send. *)
Lemma send_loop_returns fuel : forall t encoded_message sent,
  0 <= sent <= Z.of_nat (String.length encoded_message) ->
  Z.of_nat (String.length encoded_message) < 2 ^ 31 ->
  send_accepts t ->
  (String.length encoded_message - Z.to_nat sent <= fuel)%nat ->
  exists t' fuel',
    send_loop fuel t encoded_message sent = Returned (t', fuel')
    /\ (fuel - (String.length encoded_message - Z.to_nat sent) <= fuel')%nat.
Proof.
  induction fuel as [|fuel IH]; intros t enc sent Hsent Hsize Hacc Hfuel.
  - cbn [send_loop]. rewrite to_size_t_small by lia.
    destruct (Z.ltb_spec sent (Z.of_nat (String.length enc))) as [Hlt|Hge]; [lia|].
    eexists _, _. split; [done|lia].
  - destruct (Z.ltb_spec sent (Z.of_nat (String.length enc))) as [Hlt|Hge].
    + destruct (send_loop_step fuel t enc sent) as (Heq & Hd & Hrem); [lia|done|done|].
      rewrite Heq.
      destruct (IH (sys_send t (string_drop (Z.to_nat sent) enc)).2 enc
                  (sent + (sys_send t (string_drop (Z.to_nat sent) enc)).1))
        as (t' & fuel' & -> & Hf); [lia|done|done|lia|].
      eexists _, _. split; [done|lia].
    + cbn [send_loop]. rewrite to_size_t_small by lia.
      destruct (Z.ltb_spec sent (Z.of_nat (String.length enc))) as [?|_]; [lia|].
      eexists _, _. split; [done|lia].
Qed.

Lemma encode_all_cons (m : Message) queue :
  encode_all (m :: queue) = encode m +:+ encode_all queue.
Proof. reflexivity. Qed.

Lemma encode_all_app (q1 q2 : list Message) :
  encode_all (q1 ++ q2) = encode_all q1 +:+ encode_all q2.
Proof. unfold encode_all. by rewrite map_app, string_concat_app. Qed.

(** The outer loop, looked at after any number of calls of [::send] on a
    socket in range: when it has returned the queue is empty and the
    wire has gained the encodings of the whole queue, in queue order;
    when it is still running, the message in transmission has already
    left the queue and the wire has gained the encodings of the messages
    before it and part of its own. *)
Lemma flush_loop_wire (queue : list Message) : forall fuel p t,
  send_in_range t ->
  int_sized queue ->
  match flush_loop fuel queue p t with
  | Returned c' =>
      processor c' = with_egress p []
      /\ wire (transport c') = wire t +:+ encode_all queue
  | Running c' =>
      exists sent_before m rest k,
        queue = sent_before ++ m :: rest
        /\ processor c' = with_egress p rest
        /\ (k < String.length (encode m))%nat
        /\ wire (transport c') =
           wire t +:+ encode_all sent_before +:+ string_take k (encode m)
  end.
Proof.
  induction queue as [|m rest IH]; intros fuel p t Hrange Hsized.
  - simpl. by rewrite string_app_nil_r.
  - cbn [flush_loop]. apply Forall_cons in Hsized as [Hm Hrest].
    pose proof (send_loop_wire fuel t (encode m) 0) as Hw.
    destruct (send_loop fuel t (encode m) 0) as [[t' fuel']|[t' fuel']].
    + destruct Hw as [Hwire Hon]; [lia|done|done|].
      assert (Hrange' : send_in_range t').
      { unfold send_in_range. by rewrite Hon. }
      specialize (IH fuel' (with_egress p rest) t' Hrange' Hrest).
      destruct (flush_loop fuel' rest (with_egress p rest) t') as [c'|c'].
      * destruct IH as [-> ->]. split; [done|].
        rewrite Hwire. simpl. by rewrite encode_all_cons, string_app_assoc.
      * destruct IH as (sb & m' & rest' & k & -> & -> & Hk & ->).
        exists (m :: sb), m', rest', k. split; [done|]. split; [done|].
        split; [done|]. rewrite Hwire. simpl.
        by rewrite encode_all_cons, !string_app_assoc.
    + destruct Hw as (k & Hk & Hwire & Hon); [lia|done|done|].
      exists [], m, rest, k. simpl in *. split; [done|]. split; [done|].
      split; [done|]. by rewrite Hwire.
Qed.

(** With a socket that accepts bytes the outer loop returns within as
    many calls of [::send] as the queue has bytes. *)
Lemma flush_loop_returns (queue : list Message) : forall fuel p t,
  send_accepts t ->
  int_sized queue ->
  (String.length (encode_all queue) <= fuel)%nat ->
  exists c', flush_loop fuel queue p t = Returned c'.
Proof.
  induction queue as [|m rest IH]; intros fuel p t Hacc Hsized Hfuel.
  - by eexists.
  - cbn [flush_loop]. apply Forall_cons in Hsized as [Hm Hrest].
    rewrite encode_all_cons, string_length_app in Hfuel.
    destruct (send_loop_returns fuel t (encode m) 0) as (t' & fuel' & Hs & Hf);
      [lia|done|done|lia|].
    pose proof (send_loop_wire fuel t (encode m) 0) as Hw.
    rewrite Hs in *. destruct Hw as [_ Hon];
      [lia|done|by apply send_accepts_in_range|].
    apply IH; [|done|lia].
    unfold send_accepts. by rewrite Hon.
Qed.

Lemma encode_length (m : Message) : (0 < String.length (encode m))%nat.
Proof. unfold encode. rewrite string_length_app. simpl. lia. Qed.

Lemma fold_send_egress msgs p :
  m_egress (fold_left (fun q (m : Message) => send m.1 m.2 q) msgs p)
  = m_egress p ++ msgs.
Proof.
  by rewrite fold_send.
Qed.

(** C5.  After any sequence of calls of [send], [flushSendQueue] on a
    socket that accepts bytes returns with the outbound queue empty, and
    the wire has gained the encodings of the queued messages in the order
    of the calls of [send], each the text of the one JSON object with the
    members [type] and [entity] followed by exactly one space. *)
Theorem flushSendQueue_transmits_in_send_order c (msgs : list Message) :
  send_accepts (transport c) ->
  int_sized (m_egress (processor c) ++ msgs) ->
  let c1 :=
    mkConnection (fold_left (fun q (m : Message) => send m.1 m.2 q) msgs (processor c))
      (transport c) in
  exists fuel c',
    flushSendQueue fuel c1 = Returned c'
    /\ m_egress (processor c') = []
    /\ wire (transport c') =
       wire (transport c) +:+
       string_concat
         (map (fun m : Message =>
                 dump (JObject [("entity", m.2); ("type", JString m.1)]) +:+ " ")
            (m_egress (processor c) ++ msgs)).
Proof.
  intros Hacc Hsized c1.
  set (queue := m_egress (processor c) ++ msgs) in *.
  assert (Hq : m_egress (processor c1) = queue).
  { unfold c1; simpl. apply fold_send_egress. }
  destruct (flush_loop_returns queue (String.length (encode_all queue))
              (processor c1) (transport c)) as [c' Hc']; [done|done|lia|].
  exists (String.length (encode_all queue)), c'.
  unfold flushSendQueue. rewrite Hq. change (transport c1) with (transport c).
  split; [done|].
  pose proof (flush_loop_wire queue (String.length (encode_all queue))
                (processor c1) (transport c)
                (send_accepts_in_range _ Hacc) Hsized) as Hw.
  rewrite Hc' in Hw. destruct Hw as [-> ->]. split; reflexivity.
Qed.

(** C10.  On a socket of which every call of [::send] takes at least one
    byte and no more than offered, [flushSendQueue] returns with the
    outbound queue empty, within as many calls as the queue has bytes;
    whenever it is looked at while still running, the message in
    transmission has already been popped; and every successful write
    makes the count of bytes still to send smaller. *)
Theorem flushSendQueue_terminates_with_empty_queue c :
  send_accepts (transport c) ->
  int_sized (m_egress (processor c)) ->
  (forall fuel,
     (String.length (encode_all (m_egress (processor c))) <= fuel)%nat ->
     exists c', flushSendQueue fuel c = Returned c'
                /\ m_egress (processor c') = [])
  /\ (forall fuel c',
        flushSendQueue fuel c = Running c' ->
        exists sent_before m rest k,
          m_egress (processor c) = sent_before ++ m :: rest
          /\ m_egress (processor c') = rest
          /\ (k < String.length (encode m))%nat
          /\ wire (transport c') =
             wire (transport c) +:+ encode_all sent_before
             +:+ string_take k (encode m))
  /\ (forall fuel t (m : Message) sent,
        send_accepts t ->
        Z.of_nat (String.length (encode m)) < 2 ^ 31 ->
        0 <= sent < Z.of_nat (String.length (encode m)) ->
        let '(d, t') := sys_send t (string_drop (Z.to_nat sent) (encode m)) in
        send_loop (S fuel) t (encode m) sent = send_loop fuel t' (encode m) (sent + d)
        /\ 0 <= Z.of_nat (String.length (encode m)) - (sent + d)
           < Z.of_nat (String.length (encode m)) - sent).
Proof.
  intros Hacc Hsized. split; [|split].
  - intros fuel Hfuel. unfold flushSendQueue.
    destruct (flush_loop_returns _ fuel (processor c) (transport c) Hacc Hsized Hfuel)
      as [c' Hc'].
    exists c'. split; [done|].
    pose proof (flush_loop_wire _ fuel (processor c) (transport c)
                  (send_accepts_in_range _ Hacc) Hsized) as Hw.
    rewrite Hc' in Hw. by destruct Hw as [-> _].
  - intros fuel c' Hrun. unfold flushSendQueue in Hrun.
    pose proof (flush_loop_wire _ fuel (processor c) (transport c)
                  (send_accepts_in_range _ Hacc) Hsized) as Hw.
    rewrite Hrun in Hw. destruct Hw as (sb & m & rest & k & Hq & -> & Hk & ->).
    by exists sb, m, rest, k.
  - intros fuel t m sent Ht Hm Hsent.
    destruct (send_loop_step fuel t (encode m) sent Hsent Hm Ht) as (Heq & Hd & Hrem).
    destruct (sys_send t _) as [d t']. simpl in *. done.
Qed.

Lemma send_loop_failing fuel : forall t encoded_message,
  (forall k n, on_send t k n = -1) ->
  (0 < String.length encoded_message)%nat ->
  Z.of_nat (String.length encoded_message) < 2 ^ 64 ->
  exists t', send_loop fuel t encoded_message 0 = Running (t', 0%nat)
             /\ wire t' = wire t
             /\ send_calls t' = (send_calls t + fuel)%nat.
Proof.
  induction fuel as [|fuel IH]; intros t enc Hfail Hlen Hsize.
  - cbn [send_loop]. rewrite to_size_t_small by lia.
    destruct (Z.ltb_spec 0 (Z.of_nat (String.length enc))); [|lia].
    exists t. split; [done|]. split; [done|lia].
  - cbn [send_loop]. rewrite to_size_t_small by lia.
    destruct (Z.ltb_spec 0 (Z.of_nat (String.length enc))); [|lia].
    unfold sys_send. rewrite Hfail. simpl.
    destruct (IH (mkTransport (on_recv t) (on_send t) (recv_calls t)
                    (S (send_calls t)) (wire t +:+ EmptyString)) enc)
      as (t' & -> & Hw & Hc); [done|done|done|].
    exists t'. split; [done|]. simpl in *. rewrite string_app_nil_r in Hw.
    split; [done|lia].
Qed.

End flush_facts.

(** ** The receive path: proccess *)

Section proccess_facts.
Import json11 net.
Context {Args : Type}.
Implicit Types p : MessageProcessor Args.
Implicit Types c : Connection Args.

(** The bytes [recv] delivers do not become content of [m_buffer]: on a
    processor whose buffer is empty, as it is after construction,
    [proccess] queues no message and leaves the buffer empty, whatever
    the socket delivers. *)
Lemma proccess_on_empty_buffer_queues_nothing c :
  m_buffer (processor c) = EmptyString ->
  m_ingress (processor (proccess c).2) = m_ingress (processor c)
  /\ m_buffer (processor (proccess c).2) = EmptyString.
Proof.
  intros Hempty. unfold proccess.
  destruct (_ =? 0); [done|].
  destruct (sys_recv _ _) as [[data_or_error bytes] t].
  destruct (data_or_error =? 0); [done|].
  destruct (data_or_error =? -1); [done|].
  cbn [snd processor]. unfold parseBuffer. cbn [m_buffer with_received].
  by rewrite Hempty.
Qed.

(** C6.  A transport failure is not reported.  When [recv] fails,
    [proccess] returns [void] with the processor as it was, whatever the
    [errno]: a reset connection looks to the caller like a socket that
    would block.  When [::send] fails, [flushSendQueue] calls it again:
    on a socket that always fails it is still in its loop after any
    number of calls, the message popped and no byte sent. *)
Theorem transport_failure_is_not_reported :
  (forall (e : Errno) socket,
     proccess (mkConnection (new_processor socket) (failing_socket e))
     = (tt, mkConnection (@new_processor Args socket)
              (mkTransport (fun _ _ => RecvFailed e) (fun _ _ => -1) 1 0 EmptyString)))
  /\ (forall (e : Errno) fuel,
        exists t',
          flushSendQueue fuel
            (mkConnection (send "net.udp" (JNumber 4545) (@new_processor Args 3))
               (failing_socket e))
          = Running (mkConnection (new_processor 3) t')
          /\ wire t' = EmptyString
          /\ send_calls t' = fuel).
Proof.
  split.
  - intros e socket. reflexivity.
  - intros e fuel. unfold flushSendQueue. cbn [flush_loop send processor transport
      m_egress with_egress new_processor app].
    destruct (send_loop_failing fuel (failing_socket e)
                (encode ("net.udp", JNumber 4545))) as (t' & Hs & Hw & Hc).
    + done.
    + apply encode_length.
    + vm_compute. done.
    + rewrite Hs. exists t'. split; [done|]. split; [done|]. by rewrite Hc.
Qed.

End proccess_facts.

(** ** A stream of messages in the buffer *)

Section stream_facts.
Import json11 net.

Lemma parse_json_nil fuel : parse_json fuel EmptyString = None.
Proof. by destruct fuel. Qed.

Lemma parse_json_brace fuel s j r :
  parse_json fuel (String "{" s) = Some (j, r) -> is_number j = false.
Proof.
  destruct fuel as [|fuel]; [done|]. cbn [parse_json].
  rewrite consume_whitespace_stop by done.
  change (Ascii.eqb "{" "-" || is_digit "{") with false.
  change (Ascii.eqb "{" "t") with false.
  change (Ascii.eqb "{" "f") with false.
  change (Ascii.eqb "{" "n") with false.
  change (Ascii.eqb "{" dquote) with false.
  change (Ascii.eqb "{" "[") with false.
  change (Ascii.eqb "{" "{") with true. cbn iota.
  destruct (consume_whitespace s) as [|c1 r1]; [done|].
  destruct (Ascii.eqb c1 "}"); [by intros [= <- _]|].
  destruct (parse_members fuel (String c1 r1)) as [[ms r']|]; [|done].
  by intros [= <- _].
Qed.

Lemma dump_object_head m : exists s, dump (JObject m) = String "{" s.
Proof.
  destruct m as [|[k v] l]; [by eexists|].
  rewrite dump_object_cons. by eexists.
Qed.

(** The text of an object cut short is no JSON: the parser fails on every
    proper prefix of it. *)
Lemma parse_json_truncated m (B : string) c k fuel :
  wf_json (JObject m) = true ->
  B +:+ String c k = dump (JObject m) ->
  parse_json fuel B = None.
Proof.
  intros Hwf Hcut.
  destruct (parse_json fuel B) as [[j' r']|] eqn:Hparse; [exfalso|done].
  destruct (dump_object_head m) as [s Hs].
  assert (Hnum : is_number j' = false).
  { destruct B as [|b B]; [by rewrite parse_json_nil in Hparse|].
    rewrite Hs, string_app_cons in Hcut. injection Hcut as -> _.
    by eapply parse_json_brace. }
  destruct (parse_app fuel) as (Happ & _ & _).
  pose proof (Happ B (String c k) j' r' Hparse) as Hext.
  rewrite Hcut in Hext.
  specialize (Hext ltac:(by rewrite Hnum)).
  pose proof (parse_json_dump (JObject m) Hwf
                (Nat.max fuel (String.length (dump (JObject m)))) EmptyString
                (Nat.le_max_r _ _) eq_refl) as Hback.
  rewrite string_app_nil_r in Hback.
  rewrite (parse_json_mono fuel _ _ _ (Nat.le_max_l _ _) Hext) in Hback.
  injection Hback as _ Hr. by destruct r'.
Qed.

(** The envelope of a message, read back. *)
Lemma envelope_wf (m : Message) : wf_json m.2 = true -> wf_json (envelope m) = true.
Proof. intros H. rewrite envelope_members. cbn. by rewrite H. Qed.

Lemma message_of_envelope (m : Message) : message_of_value (envelope m) = Some m.
Proof. by destruct m. Qed.

Lemma omap_message_of_envelope (l : list Message) :
  omap message_of_value (map envelope l) = l.
Proof.
  induction l as [|m l IH]; [done|].
  cbn [map omap list_omap]. by rewrite message_of_envelope, IH.
Qed.

Lemma encode_head (m : Message) : exists s, encode m = String "{" s.
Proof.
  unfold encode. rewrite envelope_members.
  destruct (dump_object_head [("entity", m.2); ("type", JString m.1)]) as [s ->].
  by eexists.
Qed.

Lemma encode_all_head (l : list Message) :
  encode_all l = EmptyString \/ exists s, encode_all l = String "{" s.
Proof.
  destruct l as [|m l]; [by left|]. right.
  rewrite encode_all_cons. destruct (encode_head m) as [s ->]. by eexists.
Qed.

Lemma encode_all_nil_inv (l : list Message) : encode_all l = EmptyString -> l = [].
Proof.
  destruct l as [|m l]; [done|].
  rewrite encode_all_cons. destruct (encode_head m) as [s ->]. done.
Qed.

(** A prefix of a stream of messages starts with a brace or is empty. *)
Lemma stream_prefix_head (l : list Message) B R :
  B +:+ R = encode_all l -> B = EmptyString \/ exists s, B = String "{" s.
Proof.
  intros H. destruct B as [|b B]; [by left|]. right.
  destruct (encode_all_head l) as [Hl|[s Hl]]; rewrite Hl in H; [done|].
  rewrite string_app_cons in H. injection H as -> _. by eexists.
Qed.

Lemma consume_whitespace_stream (l : list Message) B R :
  B +:+ R = encode_all l -> consume_whitespace B = B.
Proof.
  intros H. destruct (stream_prefix_head _ _ _ H) as [->|[s ->]]; [done|].
  by rewrite consume_whitespace_stop.
Qed.

Lemma parse_values_blank fuel s :
  consume_whitespace s = EmptyString -> parse_values fuel s = Some [].
Proof. intros H. destruct fuel; cbn [parse_values]; by rewrite H. Qed.

Lemma parse_values_nil fuel : parse_values fuel EmptyString = Some [].
Proof. by apply parse_values_blank. Qed.

Lemma parse_values_value fuel s c r :
  consume_whitespace s = String c r ->
  parse_values (S fuel) s =
  match parse_json (S (String.length r)) (String c r) with
  | None => None
  | Some (v, r') =>
      match parse_values fuel r' with
      | Some vs => Some (v :: vs)
      | None => None
      end
  end.
Proof. intros H. cbn [parse_values]. by rewrite H. Qed.

Lemma parse_values_stuck s c r :
  consume_whitespace s = String c r -> parse_values 0 s = None.
Proof. intros H. cbn [parse_values]. by rewrite H. Qed.

(** The first value of a buffer that starts at a message: what a
    successful parse of it must have read. *)
Lemma parse_json_stream_prefix (m : Message) (l : list Message) B R fuel v r :
  wf_json m.2 = true ->
  B +:+ R = encode_all (m :: l) ->
  (String.length B <= fuel)%nat ->
  parse_json fuel B = Some (v, r) ->
  v = envelope m /\
  ((r = EmptyString /\ R = " " +:+ encode_all l)
   \/ exists k, r = String " " k /\ k +:+ R = encode_all l).
Proof.
  intros Hwf Hcut Hfuel Hparse.
  rewrite encode_all_cons in Hcut. unfold encode in Hcut at 1.
  rewrite string_app_assoc in Hcut.
  destruct (string_app_eq_app _ _ _ _ Hcut) as [(k & Hd & HR)|(c & k & HB & Hrest)].
  - destruct k as [|c k].
    + rewrite string_app_nil_r in Hd. subst B.
      pose proof (parse_json_dump (envelope m) (envelope_wf _ Hwf) fuel EmptyString
                    Hfuel eq_refl) as Hback.
      rewrite string_app_nil_r, Hparse in Hback. injection Hback as -> ->.
      split; [done|]. left. by rewrite HR.
    + rewrite envelope_members in Hd. symmetry in Hd.
      rewrite (parse_json_truncated [("entity", m.2); ("type", JString m.1)]
                 B c k fuel) in Hparse; [done| |done].
      rewrite <- envelope_members. by apply envelope_wf.
  - string_norm_in Hrest. injection Hrest as <- Hk. subst B.
    pose proof (parse_json_dump (envelope m) (envelope_wf _ Hwf) fuel (String " " k)) as Hback.
    rewrite Hparse in Hback.
    rewrite string_length_app in Hfuel.
    injection (Hback ltac:(lia) eq_refl) as -> ->.
    split; [done|]. right. by exists k.
Qed.

(** A buffer cut out of a stream of messages, the delimiter of the
    message before perhaps in front: it holds separators alone, or past
    them it starts at a message. *)
Lemma stream_buffer_shape (todo : list Message) B R ws :
  blank ws ->
  B +:+ R = ws +:+ encode_all todo ->
  (consume_whitespace B = EmptyString
   /\ exists ws', blank ws' /\ R = ws' +:+ encode_all todo)
  \/ (exists s, consume_whitespace B = String "{" s
               /\ String "{" s +:+ R = encode_all todo
               /\ (String.length (String "{" s) <= String.length B)%nat).
Proof.
  intros [->| ->] Hcut.
  - rewrite string_app_nil_l in Hcut.
    destruct (stream_prefix_head _ _ _ Hcut) as [->|[s ->]].
    + left. split; [done|]. exists EmptyString. split; [by left|done].
    + right. exists s. by rewrite consume_whitespace_stop.
  - destruct B as [|b B].
    + left. split; [done|]. exists " ". split; [by right|done].
    + string_norm_in Hcut. injection Hcut as -> Hcut.
      rewrite consume_whitespace_skip by done.
      destruct (stream_prefix_head _ _ _ Hcut) as [->|[s ->]].
      * left. split; [done|]. exists EmptyString. split; [by left|done].
      * right. exists s. rewrite consume_whitespace_stop by done.
        split; [done|]. split; [done|]. simpl. lia.
Qed.

(** A successful parse of a buffer cut anywhere out of a stream of
    messages has read a run of whole messages, and the cut falls right
    behind the envelope of the last of them or behind its delimiter. *)
Lemma parse_values_stream fuel : forall (todo : list Message) B R ws vs,
  blank ws ->
  wf_messages todo ->
  B +:+ R = ws +:+ encode_all todo ->
  parse_values fuel B = Some vs ->
  exists read rest ws',
    todo = read ++ rest /\ vs = map envelope read
    /\ blank ws' /\ R = ws' +:+ encode_all rest.
Proof.
  induction fuel as [|fuel IH]; intros todo B R ws vs Hws Hwf Hcut Hparse;
    destruct (stream_buffer_shape todo B R ws Hws Hcut)
      as [[Hblank (ws' & Hws' & HR)]|(s & Hhead & Hcut1 & Hlen)];
    try (rewrite (parse_values_blank _ _ Hblank) in Hparse;
         injection Hparse as <-; by exists [], todo, ws').
  - by rewrite (parse_values_stuck _ _ _ Hhead) in Hparse.
  - rewrite (parse_values_value _ _ _ _ Hhead) in Hparse.
    destruct (parse_json _ (String "{" s)) as [[v r]|] eqn:Hv; [|done].
    destruct (parse_values fuel r) as [vs'|] eqn:Hvs; [|done].
    injection Hparse as <-.
    destruct todo as [|m l]; [done|].
    apply Forall_cons in Hwf as [Hm Hl].
    destruct (parse_json_stream_prefix m l (String "{" s) R _ v r Hm Hcut1
                (Nat.le_refl _) Hv)
      as [-> [[-> HR]|(k & -> & Hk)]].
    + rewrite parse_values_nil in Hvs. injection Hvs as <-.
      exists [m], l, " ". split; [done|]. split; [done|]. split; [by right|done].
    + destruct (IH l (String " " k) R " " vs' (or_intror eq_refl) Hl) as
        (read & rest & ws' & -> & -> & Hws' & ->); [by rewrite <- Hk|done|].
      by exists (m :: read), rest, ws'.
Qed.

Lemma encode_all_length (l : list Message) :
  (length l <= String.length (encode_all l))%nat.
Proof.
  induction l as [|m l IH]; [done|].
  rewrite encode_all_cons, string_length_app. pose proof (encode_length m).
  simpl. lia.
Qed.

(** A buffer that holds a stream of whole messages parses to their
    envelopes. *)
Lemma parse_values_complete (todo : list Message) : forall fuel ws,
  wf_messages todo ->
  blank ws ->
  (length todo <= fuel)%nat ->
  parse_values fuel (ws +:+ encode_all todo) = Some (map envelope todo).
Proof.
  induction todo as [|m l IH]; intros fuel ws Hwf Hws Hfuel.
  - apply parse_values_blank. by destruct Hws as [->| ->].
  - apply Forall_cons in Hwf as [Hm Hl].
    destruct fuel as [|fuel]; [simpl in Hfuel; lia|].
    destruct (encode_all_head (m :: l)) as [Hnil|[s Hs]].
    { by apply encode_all_nil_inv in Hnil. }
    assert (Hhead : consume_whitespace (ws +:+ encode_all (m :: l)) = String "{" s).
    { rewrite Hs. by destruct Hws as [->| ->]. }
    rewrite (parse_values_value _ _ _ _ Hhead), <- Hs.
    assert (Hv : parse_json (S (String.length s)) (encode_all (m :: l))
                 = Some (envelope m, String " " (encode_all l))).
    { assert (Hlen : String.length (encode_all (m :: l)) = S (String.length s))
        by (by rewrite Hs).
      rewrite encode_all_cons in *. unfold encode in *.
      rewrite string_app_assoc in *. string_norm.
      apply parse_json_dump; [by apply envelope_wf| |done].
      rewrite string_length_app in Hlen. lia. }
    rewrite Hv.
    change (String " " (encode_all l)) with (" " +:+ encode_all l).
    rewrite IH; [done|done|by right|simpl in Hfuel; lia].
Qed.

End stream_facts.

Section framing_facts.
Import json11 net.
Context {Args : Type}.
Implicit Types p : MessageProcessor Args.

Lemma parseBuffer_no_parse p :
  parse_values (String.length (m_buffer p)) (m_buffer p) = None ->
  parseBuffer p = p.
Proof.
  intros H. unfold parseBuffer, parse_multi. rewrite H.
  by destruct (String.eqb _ _).
Qed.

Lemma parseBuffer_some_parse p vs :
  parse_values (String.length (m_buffer p)) (m_buffer p) = Some vs ->
  parseBuffer p =
  with_ingress (with_buffer p EmptyString) (m_ingress p ++ omap message_of_value vs).
Proof.
  intros H. unfold parseBuffer, parse_multi. rewrite H.
  destruct (String.eqb (m_buffer p) EmptyString) eqn:Hempty.
  - apply string_eqb_nil in Hempty. rewrite Hempty in H. simpl in H.
    injection H as <-. simpl. unfold with_ingress, with_buffer; simpl.
    rewrite app_nil_r, <- Hempty. by rewrite processor_eta.
  - simpl. by rewrite fold_enqueue_message.
Qed.

Lemma parseBuffer_buffer p :
  m_capacity (parseBuffer p) = m_capacity p
  /\ (String.length (m_buffer (parseBuffer p)) <= String.length (m_buffer p))%nat.
Proof.
  destruct (parse_values (String.length (m_buffer p)) (m_buffer p)) as [vs|] eqn:Hvs.
  - rewrite (parseBuffer_some_parse p _ Hvs). simpl. split; [done|lia].
  - by rewrite (parseBuffer_no_parse p Hvs).
Qed.

End framing_facts.

Lemma string_init_app_char s c : string_init (s +:+ String c EmptyString) = s.
Proof.
  unfold string_init. rewrite string_length_app. simpl.
  replace (String.length s + 1 - 1)%nat with (String.length s) by lia.
  induction s as [|a s IH]; [done|]. rewrite string_app_cons. simpl. by rewrite IH.
Qed.

(** ** The theorems at concrete processors *)

Lemma parseBuffer_failed_parse_unchanged_witness :
  (json11.parse_multi (net.m_buffer truncated_processor)).2 <> EmptyString
  /\ net.parseBuffer truncated_processor = truncated_processor.
Proof.
  assert (H : (json11.parse_multi (net.m_buffer truncated_processor)).2 <> EmptyString)
    by (vm_compute; discriminate).
  split; [exact H|].
  exact (parseBuffer_failed_parse_unchanged truncated_processor H).
Defined.

Lemma parseBuffer_parsed_values_witness :
  net.m_ingress (net.parseBuffer mixed_processor)
  = [("a", json11.JNumber 1); ("b", json11.JNull)]
  /\ net.m_buffer (net.parseBuffer mixed_processor) = EmptyString.
Proof.
  rewrite (parseBuffer_parsed_values mixed_processor
             [json11.JObject [("entity", json11.JNumber 1); ("type", json11.JString "a")];
              json11.JNumber 7;
              json11.JObject [("entity", json11.JNumber 2)];
              json11.JObject [("type", json11.JString "b")]]).
  - split; reflexivity.
  - vm_compute. reflexivity.
Defined.

Lemma dispatch_unknown_type_inserts_empty_entry_witness :
  (net.dispatch tt unhandled_processor).2 = [net.Popped "nope" json11.JNull]
  /\ net.m_handlers (net.dispatch tt unhandled_processor).1 !! "nope" = Some [].
Proof.
  destruct (dispatch_unknown_type_inserts_empty_entry tt unhandled_processor
              "nope" json11.JNull) as (_ & _ & _ & Hentry & _ & Halone).
  - apply list_elem_of_here.
  - reflexivity.
  - split; [by apply Halone|exact Hentry].
Defined.

Lemma steady_socket_accepts : send_accepts (steady_socket 7).
Proof. intros k n Hn. simpl. lia. Qed.

Lemma flushSendQueue_transmits_in_send_order_witness :
  exists fuel c',
    net.flushSendQueue fuel
      (net.mkConnection
         (net.send "net.udp.ack" (json11.JBool true)
            (net.send "net.udp" (json11.JNumber 4545) (@net.new_processor unit 3)))
         (steady_socket 7))
    = Returned c'
    /\ net.m_egress (net.processor c') = []
    /\ wire (net.transport c')
       = bq "{`entity`: 4545, `type`: `net.udp`} {`entity`: true, `type`: `net.udp.ack`} ".
Proof.
  apply (flushSendQueue_transmits_in_send_order steady_connection
           [("net.udp", json11.JNumber 4545); ("net.udp.ack", json11.JBool true)]).
  - exact steady_socket_accepts.
  - repeat constructor; vm_compute; reflexivity.
Defined.

Lemma flushSendQueue_terminates_with_empty_queue_witness :
  exists c',
    net.flushSendQueue 40
      (net.mkConnection (net.send "net.udp" (json11.JNumber 4545) (@net.new_processor unit 3))
         (steady_socket 7))
    = Returned c'
    /\ net.m_egress (net.processor c') = [].
Proof.
  destruct (flushSendQueue_terminates_with_empty_queue
              (net.mkConnection
                 (net.send "net.udp" (json11.JNumber 4545) (@net.new_processor unit 3))
                 (steady_socket 7))) as (Hret & _ & _).
  - exact steady_socket_accepts.
  - repeat constructor; vm_compute; reflexivity.
  - apply Hret. vm_compute. lia.
Defined.

(** * Further properties *)

(** ** Registration *)

Section registration_facts.
Import json11 net.
Context {Args : Type}.
Implicit Types p : MessageProcessor Args.
Implicit Types c : Connection Args.

(** [addHandler] as one update of the registry. *)
Lemma addHandler_insert type h p :
  addHandler type h p =
  with_handlers p (<[type := registered type p ++ [h]]> (m_handlers p)).
Proof.
  unfold addHandler, registered, subscript.
  destruct (m_handlers p !! type) as [hs|] eqn:Hm; simpl; [done|].
  by rewrite insert_insert_eq.
Qed.

Lemma flat_map_ext_Forall {A B} (P : A -> Prop) (f g : A -> list B) l :
  Forall P l -> (forall x, P x -> f x = g x) -> flat_map f l = flat_map g l.
Proof.
  intros Hl H. induction Hl as [|x l Hx Hl IH]; simpl; [done|].
  by rewrite (H x Hx), IH.
Qed.

Lemma touched_registered (queue : list Message) :
  forall (m : gmap string (list (Handler Args))) type,
  default [] (touched queue m !! type) = default [] (m !! type).
Proof.
  induction queue as [|msg queue IH]; intros m type; [done|].
  rewrite touched_cons, IH. apply subscript_lookup.
Qed.

(** X1.  [addHandler] puts the handler behind the handlers already
    registered under its type, none of which is replaced or moved; the
    entries of all other types are as before; and nothing else of the
    processor changes: it is the processor with the one entry of the
    registry updated. *)
Theorem addHandler_appends_under_its_type type h p :
  registered type (addHandler type h p) = registered type p ++ [h]
  /\ (forall type', type' <> type ->
        m_handlers (addHandler type h p) !! type' = m_handlers p !! type')
  /\ addHandler type h p
     = with_handlers p (<[type := registered type p ++ [h]]> (m_handlers p)).
Proof.
  rewrite addHandler_insert. split; [|split; [|done]].
  - unfold registered; simpl. by rewrite lookup_insert_eq.
  - intros type' Hne. simpl. by rewrite lookup_insert_ne.
Qed.

(** X2.  Registrations under different types do not interfere: made in
    either order they give the same processor.  The order of
    registration matters within one type only. *)
Theorem addHandler_types_commute type1 h1 type2 h2 p :
  type1 <> type2 ->
  addHandler type1 h1 (addHandler type2 h2 p)
  = addHandler type2 h2 (addHandler type1 h1 p).
Proof.
  intros Hne. rewrite !addHandler_insert. unfold with_handlers, registered; simpl.
  rewrite !lookup_insert_ne by done.
  f_equal. by apply insert_insert_ne.
Qed.

(** X3.  A muted handler registered under a type is called for every
    message of that type, after the handlers registered before it and
    with the entity and the context arguments; and it sends nothing: the
    outbound queue after [dispatch] is the one [dispatch] leaves without
    it. *)
Theorem muted_handler_is_called_and_sends_nothing args type (mh : MutedHandler Args) p :
  (dispatch args (addMutedHandler type mh p)).2
  = flat_map (events_of (m_socket p) args (addMutedHandler type mh p)) (m_ingress p)
  /\ (forall entity,
        events_of (m_socket p) args (addMutedHandler type mh p) (type, entity)
        = map (fun h => Called (handler_name h) (m_socket p) entity args)
            (registered type p)
          ++ [Called (muted_name mh) (m_socket p) entity args; Popped type entity])
  /\ m_egress (dispatch args (addMutedHandler type mh p)).1
     = m_egress (dispatch args p).1.
Proof.
  unfold dispatch, addMutedHandler. rewrite !dispatch_loop_spec, addHandler_insert.
  cbn [fst snd m_egress m_ingress m_socket with_handlers].
  split; [done|]. split.
  - intros entity. unfold events_of, registered. cbn [fst snd m_handlers with_handlers].
    rewrite lookup_insert_eq. cbn [default id]. rewrite map_app, <- app_assoc. done.
  - f_equal. apply flat_map_ext_all. intros [t e].
    unfold replies_of, registered. cbn [fst snd m_handlers with_handlers].
    destruct (decide (type = t)) as [->|Hne].
    + rewrite lookup_insert_eq. cbn [default id]. rewrite flat_map_app. simpl.
      by rewrite app_nil_r.
    + by rewrite lookup_insert_ne.
Qed.

(** X4.  A handler is called for messages of its type only: when no
    message of the inbound queue has the type a handler is registered
    under, [dispatch] makes the same calls and leaves the same outbound
    queue as without that handler. *)
Theorem handler_is_not_called_for_other_types args type h p :
  Forall (fun msg : Message => msg.1 <> type) (m_ingress p) ->
  (dispatch args (addHandler type h p)).2 = (dispatch args p).2
  /\ m_egress (dispatch args (addHandler type h p)).1 = m_egress (dispatch args p).1.
Proof.
  intros Hother. unfold dispatch. rewrite !dispatch_loop_spec.
  cbn [fst snd m_egress]. rewrite addHandler_insert.
  cbn [m_ingress m_egress m_socket with_handlers app].
  split.
  - apply (flat_map_ext_Forall _ _ _ _ Hother). intros msg Hmsg.
    unfold events_of, registered; simpl. by rewrite lookup_insert_ne.
  - f_equal. apply (flat_map_ext_Forall _ _ _ _ Hother). intros msg Hmsg.
    unfold replies_of, registered; simpl. by rewrite lookup_insert_ne.
Qed.

(** X5.  [dispatch] registers and unregisters nothing: under every type
    the handlers are afterwards the ones they were before, in the same
    order. *)
Theorem dispatch_keeps_registrations args p type :
  registered type (dispatch args p).1 = registered type p.
Proof.
  unfold dispatch. rewrite dispatch_loop_spec. unfold registered; simpl.
  apply touched_registered.
Qed.

(** X6.  [dispatch] handles every received message once: a second
    [dispatch], with whatever arguments, finds the inbound queue empty,
    calls no handler and changes nothing.  The buffer, the bytes
    received, the capacity and the socket are not touched by
    [dispatch]. *)
Theorem dispatch_drains_the_queue_once args args' p :
  dispatch args' (dispatch args p).1 = ((dispatch args p).1, [])
  /\ m_buffer (dispatch args p).1 = m_buffer p
  /\ m_received (dispatch args p).1 = m_received p
  /\ m_capacity (dispatch args p).1 = m_capacity p
  /\ m_socket (dispatch args p).1 = m_socket p.
Proof.
  unfold dispatch. rewrite (dispatch_loop_spec args (m_ingress p) p []). cbn. done.
Qed.

(** X7.  The replies of the handlers go out with the next flush: after
    [dispatch], [flushSendQueue] on a socket that accepts bytes returns,
    and the wire has gained the messages that were waiting in the
    outbound queue followed by the replies, in the order the handlers
    sent them; both queues are then empty. *)
Theorem dispatch_replies_reach_the_wire args c :
  send_accepts (transport c) ->
  int_sized (m_egress (processor c)
             ++ flat_map (replies_of args (processor c)) (m_ingress (processor c))) ->
  exists fuel c',
    flushSendQueue fuel (mkConnection (dispatch args (processor c)).1 (transport c))
    = Returned c'
    /\ wire (transport c') =
       wire (transport c) +:+ encode_all (m_egress (processor c))
       +:+ encode_all (flat_map (replies_of args (processor c)) (m_ingress (processor c)))
    /\ m_ingress (processor c') = []
    /\ m_egress (processor c') = [].
Proof.
  intros Hacc Hsized.
  set (queue := m_egress (processor c)
                ++ flat_map (replies_of args (processor c)) (m_ingress (processor c))) in *.
  set (p1 := (dispatch args (processor c)).1).
  assert (Hq : m_egress p1 = queue /\ m_ingress p1 = []).
  { unfold p1, dispatch. by rewrite dispatch_loop_spec. }
  destruct Hq as [Hq Hin].
  destruct (flush_loop_returns queue (String.length (encode_all queue)) p1 (transport c))
    as [c' Hc']; [done|done|lia|].
  exists (String.length (encode_all queue)), c'.
  unfold flushSendQueue. cbn [processor transport]. rewrite Hq.
  split; [done|].
  pose proof (flush_loop_wire queue (String.length (encode_all queue)) p1 (transport c)
                (send_accepts_in_range _ Hacc) Hsized) as Hw.
  rewrite Hc' in Hw. destruct Hw as [-> ->].
  split; [|done]. unfold queue. by rewrite encode_all_app.
Qed.

End registration_facts.

Lemma addHandler_types_commute_witness :
  net.addHandler "a" echo_handler (net.addHandler "b" echo_handler (net.new_processor 3))
  = net.addHandler "b" echo_handler (net.addHandler "a" echo_handler (net.new_processor 3)).
Proof.
  apply (addHandler_types_commute "a" echo_handler "b" echo_handler (net.new_processor 3)).
  discriminate.
Defined.

Lemma handler_is_not_called_for_other_types_witness :
  (net.dispatch tt (net.addHandler "pong" echo_handler pinged_processor)).2
  = (net.dispatch tt pinged_processor).2
  /\ net.m_egress (net.dispatch tt (net.addHandler "pong" echo_handler pinged_processor)).1
     = net.m_egress (net.dispatch tt pinged_processor).1.
Proof.
  apply (handler_is_not_called_for_other_types tt "pong" echo_handler pinged_processor).
  repeat constructor. discriminate.
Defined.

Lemma dispatch_replies_reach_the_wire_witness :
  exists fuel c',
    net.flushSendQueue fuel
      (net.mkConnection (net.dispatch tt pinged_processor).1 (steady_socket 7))
    = Returned c'
    /\ wire (net.transport c') = bq "{`entity`: 7, `type`: `echo`} "
    /\ net.m_ingress (net.processor c') = []
    /\ net.m_egress (net.processor c') = [].
Proof.
  apply (dispatch_replies_reach_the_wire tt
           (net.mkConnection pinged_processor (steady_socket 7))).
  - exact steady_socket_accepts.
  - repeat constructor; vm_compute; reflexivity.
Defined.

(** ** Extraction: what parseBuffer keeps *)

Section extraction_facts.
Import json11 net.
Context {Args : Type}.
Implicit Types p : MessageProcessor Args.
Implicit Types c : Connection Args.

(** The two ways [parseBuffer] returns. *)
Lemma parseBuffer_cases p :
  parseBuffer p = p
  \/ exists new,
       parseBuffer p = with_ingress (with_buffer p EmptyString) (m_ingress p ++ new).
Proof.
  destruct (parse_values (String.length (m_buffer p)) (m_buffer p)) as [vs|] eqn:Hvs.
  - right. eexists. by apply parseBuffer_some_parse.
  - left. by apply parseBuffer_no_parse.
Qed.

Lemma parseBuffer_empty p : m_buffer p = EmptyString -> parseBuffer p = p.
Proof. intros H. unfold parseBuffer. by rewrite H. Qed.

Lemma parseBuffer_with_received p b :
  parseBuffer (with_received p b) = with_received (parseBuffer p) b.
Proof.
  destruct (parse_values (String.length (m_buffer p)) (m_buffer p)) as [vs|] eqn:Hvs.
  - rewrite (parseBuffer_some_parse p _ Hvs).
    by rewrite (parseBuffer_some_parse (with_received p b) vs).
  - rewrite (parseBuffer_no_parse p Hvs).
    by rewrite (parseBuffer_no_parse (with_received p b)).
Qed.

Lemma encode_all_snoc_length (l : list Message) (m : Message) :
  (String.length (encode m) <= String.length (encode_all (l ++ [m])))%nat.
Proof.
  rewrite encode_all_app, string_length_app.
  change (encode_all [m]) with (encode m +:+ EmptyString).
  rewrite string_app_nil_r. lia.
Qed.

(** Whole messages with the first bytes of another behind them do not
    parse. *)
Lemma parse_values_truncated_tail (msgs : list Message) (m : Message) B (x : ascii) k fuel :
  wf_messages msgs ->
  wf_json m.2 = true ->
  B <> EmptyString ->
  B +:+ String x k = dump (envelope m) ->
  parse_values fuel (encode_all msgs +:+ B) = None.
Proof.
  intros Hwf Hm HB Hcut.
  destruct (parse_values fuel (encode_all msgs +:+ B)) as [vs|] eqn:Hvs; [exfalso|done].
  assert (Hstream : (encode_all msgs +:+ B) +:+ (String x k +:+ " ")
                    = EmptyString +:+ encode_all (msgs ++ [m])).
  { rewrite string_app_nil_l, encode_all_app, string_app_assoc. f_equal.
    change (encode_all [m]) with (encode m +:+ EmptyString).
    rewrite string_app_nil_r. unfold encode.
    by rewrite <- Hcut, string_app_assoc. }
  destruct (parse_values_stream fuel (msgs ++ [m]) (encode_all msgs +:+ B)
              (String x k +:+ " ") EmptyString vs (or_introl eq_refl))
    as (read & rest & ws' & Hsplit & _ & Hws' & HR);
    [|exact Hstream|exact Hvs|].
  { apply Forall_app. split; [done|]. by constructor. }
  assert (Hlen : (String.length (String x k +:+ " ") < String.length (encode m))%nat).
  { unfold encode. rewrite <- Hcut, !string_length_app.
    destruct B; [done|]. simpl. lia. }
  rewrite HR in Hlen. rewrite string_length_app in Hlen.
  destruct rest as [|y rest _] using rev_ind.
  - change (encode_all []) with EmptyString in HR.
    rewrite string_app_nil_r, string_app_cons in HR.
    destruct Hws' as [->| ->]; [done|].
    injection HR as _ HR. apply string_app_eq_nil in HR as [_ HR]. done.
  - rewrite app_assoc in Hsplit. apply app_inj_tail in Hsplit as [_ <-].
    pose proof (encode_all_snoc_length rest m). lia.
Qed.

(** X8.  [parseBuffer] on an empty buffer does nothing, and running it
    twice in a row is running it once: what one run leaves in the buffer
    yields nothing to the next. *)
Theorem parseBuffer_is_idempotent p :
  (m_buffer p = EmptyString -> parseBuffer p = p)
  /\ parseBuffer (parseBuffer p) = parseBuffer p.
Proof.
  split; [apply parseBuffer_empty|].
  destruct (parseBuffer_cases p) as [H|[new H]].
  - by rewrite !H.
  - rewrite H. by apply parseBuffer_empty.
Qed.

(** X9.  [parseBuffer] takes all of the buffer or none of it: either it
    changes nothing at all, or the buffer is empty afterwards.  In both
    cases the messages already in the inbound queue stay where they are,
    new ones coming behind them, and the outbound queue, the registry,
    the socket, the capacity and the bytes received are untouched. *)
Theorem parseBuffer_keeps_or_consumes_all p :
  (parseBuffer p = p \/ m_buffer (parseBuffer p) = EmptyString)
  /\ m_ingress p `prefix_of` m_ingress (parseBuffer p)
  /\ m_egress (parseBuffer p) = m_egress p
  /\ m_handlers (parseBuffer p) = m_handlers p
  /\ m_socket (parseBuffer p) = m_socket p
  /\ m_capacity (parseBuffer p) = m_capacity p
  /\ m_received (parseBuffer p) = m_received p.
Proof.
  destruct (parseBuffer_cases p) as [->|[new ->]].
  - split; [by left|]. done.
  - split; [by right|]. split; [by exists new|done].
Qed.

(** X10.  A message of which only the first bytes have arrived holds
    back the whole messages in front of it: on a buffer that has any
    number of serialized messages followed by a proper, non-empty prefix
    of the text of another, [parseBuffer] extracts nothing and leaves
    the buffer as it is. *)
Theorem truncated_tail_holds_back_whole_messages (msgs : list Message) (m : Message)
    B (x : ascii) k p :
  wf_messages msgs ->
  wf_json m.2 = true ->
  B <> EmptyString ->
  B +:+ String x k = dump (envelope m) ->
  m_buffer p = encode_all msgs +:+ B ->
  parseBuffer p = p.
Proof.
  intros Hwf Hm HB Hcut Hbuf. apply parseBuffer_no_parse. rewrite Hbuf.
  by apply (parse_values_truncated_tail msgs m B x k).
Qed.

End extraction_facts.

Lemma truncated_tail_holds_back_whole_messages_witness :
  net.parseBuffer held_back_processor = held_back_processor.
Proof.
  apply (truncated_tail_holds_back_whole_messages
           [("a", json11.JNumber 1)] ("b", json11.JNumber 2)
           (bq "{`entity`: 2, `ty") "p" (bq "e`: `b`}") held_back_processor).
  - repeat constructor.
  - reflexivity.
  - discriminate.
  - vm_compute. reflexivity.
  - vm_compute. reflexivity.
Defined.

(** ** The receive path: what proccess leaves alone *)

Section receive_facts.
Import json11 net.
Context {Args : Type}.
Implicit Types p : MessageProcessor Args.
Implicit Types c : Connection Args.

Lemma string_length_take_le n s : (String.length (string_take n s) <= n)%nat.
Proof. rewrite string_length_take. lia. Qed.

(** The three ways [proccess] returns: without a call of [recv], after a
    call that gave no bytes, and after a call that gave some. *)
Lemma proccess_cases c :
  proccess c = (tt, c)
  \/ (exists t, proccess c = (tt, mkConnection (processor c) t)
        /\ wire t = wire (transport c) /\ send_calls t = send_calls (transport c)
        /\ recv_calls t = S (recv_calls (transport c)))
  \/ (exists t bytes,
        proccess c = (tt, mkConnection (with_received (parseBuffer (processor c)) bytes) t)
        /\ wire t = wire (transport c) /\ send_calls t = send_calls (transport c)
        /\ recv_calls t = S (recv_calls (transport c))
        /\ Z.of_nat (String.length bytes)
           <= to_size_t (m_capacity (processor c)
                         - Z.of_nat (String.length (m_buffer (processor c))))).
Proof.
  unfold proccess.
  destruct (_ =? 0); [by left|]. right.
  unfold sys_recv.
  destruct (on_recv _ _ _) as [bytes|e].
  - set (got := string_take _ bytes).
    destruct (Z.of_nat (String.length got) =? 0); [left; by eexists|].
    destruct (Z.of_nat (String.length got) =? -1); [left; by eexists|].
    right. eexists _, got. rewrite parseBuffer_with_received.
    split; [done|]. split; [done|]. split; [done|]. split; [done|].
    unfold got. pose proof (string_length_take_le
      (Z.to_nat (to_size_t (m_capacity (processor c)
                  - Z.of_nat (String.length (m_buffer (processor c)))))) bytes).
    unfold to_size_t in *.
    pose proof (Z.mod_pos_bound (m_capacity (processor c)
                  - Z.of_nat (String.length (m_buffer (processor c)))) (2 ^ 64)).
    lia.
  - left. by eexists.
Qed.

(** X11.  [proccess] only receives: it makes no call of [::send] and
    puts no byte on the wire, it calls [recv] once at most, it leaves the
    outbound queue and the registry as they are, and the messages
    already in the inbound queue stay at its front. *)
Theorem proccess_never_sends c :
  wire (transport (proccess c).2) = wire (transport c)
  /\ send_calls (transport (proccess c).2) = send_calls (transport c)
  /\ (recv_calls (transport (proccess c).2) <= S (recv_calls (transport c)))%nat
  /\ m_egress (processor (proccess c).2) = m_egress (processor c)
  /\ m_handlers (processor (proccess c).2) = m_handlers (processor c)
  /\ m_ingress (processor c) `prefix_of` m_ingress (processor (proccess c).2).
Proof.
  assert (Hkeep : m_ingress (processor c) `prefix_of` m_ingress (parseBuffer (processor c))
                  /\ m_egress (parseBuffer (processor c)) = m_egress (processor c)
                  /\ m_handlers (parseBuffer (processor c)) = m_handlers (processor c)).
  { destruct (parseBuffer_cases (processor c)) as [->|[new ->]]; [done|].
    split; [by exists new|done]. }
  destruct Hkeep as (Hpre & Heg & Hh).
  destruct (proccess_cases c) as [->|[(t & -> & Hw & Hs & Hr)|(t & b & -> & Hw & Hs & Hr & _)]];
    cbn [snd processor transport m_egress m_handlers m_ingress with_received];
    repeat split; try done; lia.
Qed.

(** X12.  The bytes [recv] delivers never reach the parser: whatever the
    socket delivers, [proccess] leaves the inbound queue and the buffer
    as they were, or as [parseBuffer] makes them from the content the
    buffer had before the call.  With an empty buffer it therefore
    queues nothing. *)
Theorem proccess_never_parses_received_bytes c :
  ((m_ingress (processor (proccess c).2) = m_ingress (processor c)
    /\ m_buffer (processor (proccess c).2) = m_buffer (processor c))
   \/ (m_ingress (processor (proccess c).2) = m_ingress (parseBuffer (processor c))
       /\ m_buffer (processor (proccess c).2) = m_buffer (parseBuffer (processor c))))
  /\ (m_buffer (processor c) = EmptyString ->
      m_ingress (processor (proccess c).2) = m_ingress (processor c)).
Proof.
  split.
  - destruct (proccess_cases c) as [->|[(t & -> & _)|(t & b & -> & _)]];
      cbn [snd processor]; [by left|by left|by right].
  - intros Hempty.
    destruct (proccess_cases c) as [->|[(t & -> & _)|(t & b & -> & _)]];
      cbn [snd processor]; [done|done|].
    by rewrite (parseBuffer_empty _ Hempty).
Qed.

(** X13.  [recv] is given no more room than the buffer has left: when
    the content of the buffer and the bytes received behind it lie within
    the capacity before [proccess], they do so afterwards, whatever the
    socket delivers. *)
Theorem proccess_keeps_within_capacity c :
  within_capacity (processor c) ->
  within_capacity (processor (proccess c).2).
Proof.
  intros [Hcap Hfit].
  destruct (proccess_cases c) as [->|[(t & -> & _)|(t & b & -> & _ & _ & _ & Hb)]];
    cbn [snd processor]; [done|done|].
  destruct (parseBuffer_buffer (processor c)) as [Hc Hlen].
  unfold within_capacity. cbn [m_capacity m_buffer m_received with_received].
  rewrite Hc. split; [done|].
  rewrite to_size_t_small in Hb by lia. lia.
Qed.

(** X14.  The end of the stream is not told: when the peer has shut the
    connection down and [recv] returns 0, [proccess] returns with the
    processor exactly as it was, as it does when [recv] fails. *)
Theorem proccess_closed_peer_is_silent c :
  (forall n, on_recv (transport c) (recv_calls (transport c)) n = Received EmptyString
             \/ exists e, on_recv (transport c) (recv_calls (transport c)) n = RecvFailed e) ->
  processor (proccess c).2 = processor c.
Proof.
  intros Hend. unfold proccess.
  destruct (_ =? 0); [done|]. unfold sys_recv.
  destruct (Hend (Z.to_nat (to_size_t (m_capacity (processor c)
                     - Z.of_nat (String.length (m_buffer (processor c)))))))
    as [->|[e ->]]; [|done].
  by destruct (Z.to_nat _).
Qed.

End receive_facts.

Lemma proccess_keeps_within_capacity_witness :
  within_capacity
    (net.processor
       (net.proccess
          (net.mkConnection (net.with_buffer (@net.new_processor unit 3) "{")
             (readable_socket "}"))).2).
Proof.
  apply (proccess_keeps_within_capacity
           (net.mkConnection (net.with_buffer (@net.new_processor unit 3) "{")
              (readable_socket "}"))).
  split; vm_compute; [reflexivity|discriminate].
Defined.

Lemma proccess_closed_peer_is_silent_witness :
  net.processor
    (net.proccess
       (net.mkConnection (@net.new_processor unit 3) (readable_socket EmptyString))).2
  = net.new_processor 3.
Proof.
  apply (proccess_closed_peer_is_silent
           (net.mkConnection (@net.new_processor unit 3) (readable_socket EmptyString))).
  intros n. by left.
Defined.

(** ** The feed of the code: recv by recv *)

Section feed_facts.
Import json11 net.
Context {Args : Type}.
Implicit Types p : MessageProcessor Args.
Implicit Types c : Connection Args.

(** A processor that is as the constructor made it, but for the bytes in
    the reserved storage, stays so under [proccess]: the bytes [recv]
    delivers take the place of the ones delivered before, and nothing
    else changes. *)
Lemma proccess_storage_only c socket r :
  processor c = with_received (new_processor socket) r ->
  (String.length r <= Z.to_nat 8192)%nat ->
  exists r',
    processor (proccess c).2 = with_received (new_processor socket) r'
    /\ (String.length r' <= Z.to_nat 8192)%nat.
Proof.
  intros Hp Hr.
  destruct (proccess_cases c) as [->|[(t & -> & _)|(t & b & -> & _ & _ & _ & Hb)]];
    cbn [snd processor]; [by exists r|by exists r|].
  exists b. rewrite Hp in *. split.
  - by rewrite parseBuffer_empty.
  - cbn [m_capacity m_buffer with_received new_processor String.length] in Hb. change (to_size_t (8192 - Z.of_nat 0)) with 8192 in Hb. lia.
Qed.

Lemma proccess_times_storage_only n : forall c socket r,
  processor c = with_received (new_processor socket) r ->
  (String.length r <= Z.to_nat 8192)%nat ->
  exists r',
    processor (proccess_times n c) = with_received (new_processor socket) r'
    /\ (String.length r' <= Z.to_nat 8192)%nat.
Proof.
  induction n as [|n IH]; intros c socket r Hp Hr; [by exists r|].
  cbn [proccess_times].
  destruct (proccess_storage_only c socket r Hp Hr) as (r1 & Hp1 & Hr1).
  by apply (IH _ socket r1).
Qed.

(** One call of [proccess] on a processor with an empty buffer whose
    socket has bytes to deliver. *)
Lemma proccess_delivery c bytes :
  m_buffer (processor c) = EmptyString ->
  m_capacity (processor c) = 8192 ->
  on_recv (transport c) (recv_calls (transport c)) (Z.to_nat 8192) = Received bytes ->
  processor (proccess c).2
  = (if String.eqb bytes EmptyString then processor c
     else with_received (processor c) (string_take (Z.to_nat 8192) bytes))
  /\ recv_calls (transport (proccess c).2) = S (recv_calls (transport c))
  /\ on_recv (transport (proccess c).2) = on_recv (transport c).
Proof.
  intros Hbuf Hcap Hrecv. unfold proccess, sys_recv. rewrite Hbuf, Hcap.
  change (to_size_t (8192 - Z.of_nat (String.length EmptyString))) with 8192.
  cbn [Z.eqb]. rewrite Hrecv.
  destruct bytes as [|x bytes]; [done|].
  change (String.eqb (String x bytes) EmptyString) with false.
  change (string_take (Z.to_nat 8192) (String x bytes))
    with (String x (string_take (Z.to_nat 8191) bytes)).
  cbn [String.length]. rewrite Nat2Z.inj_succ.
  destruct (Z.eqb_spec (Z.succ (Z.of_nat (String.length (string_take (Z.to_nat 8191) bytes)))) 0);
    [lia|].
  destruct (Z.eqb_spec (Z.succ (Z.of_nat (String.length (string_take (Z.to_nat 8191) bytes)))) (-1));
    [lia|].
  cbn [snd processor transport recv_calls on_recv].
  split; [|done]. apply parseBuffer_empty. exact Hbuf.
Qed.

(** C2.  On the feed of the code the stream is never extracted.
    Whatever chunks the socket delivers to a new processor, one per call
    of [proccess], and however many calls are made, the inbound queue
    stays empty and the buffer stays empty: the bytes [recv] stores
    behind the content of the buffer never become content.  So when the
    chunks are the serialized stream of a sequence of messages that is
    not empty, the inbound queue does not hold the sequence once all the
    chunks are delivered. *)
Theorem chunked_stream_is_never_extracted (msgs : list Message) chunks socket :
  let c := mkConnection (@new_processor Args socket) (chunked_socket chunks) in
  (forall n,
     m_ingress (processor (proccess_times n c)) = []
     /\ m_buffer (processor (proccess_times n c)) = EmptyString)
  /\ (string_concat chunks = encode_all msgs ->
      msgs <> [] ->
      m_ingress (processor (proccess_times (length chunks) c)) <> msgs).
Proof.
  intros c.
  assert (Hall : forall n,
            m_ingress (processor (proccess_times n c)) = []
            /\ m_buffer (processor (proccess_times n c)) = EmptyString).
  { intros n.
    destruct (proccess_times_storage_only n c socket EmptyString) as (r & -> & _);
      [done|simpl; lia|done]. }
  split; [exact Hall|].
  intros _ Hmsgs. destruct (Hall (length chunks)) as [-> _]. by destruct msgs.
Qed.

(** C8.  On the feed of the code the last byte does not complete the
    message.  A new processor is delivered all the bytes of a serialized
    message but the last, and then the last: after the first delivery no
    message is queued and the buffer is empty, the bytes lying in the
    reserved storage only; after the second the storage holds the last
    byte alone, the buffer is still empty and the message is not in the
    inbound queue. *)
Theorem final_byte_does_not_complete_the_message (m : Message) socket :
  Z.of_nat (String.length (encode m)) <= 8192 ->
  let c0 := mkConnection (@new_processor Args socket)
              (chunked_socket [string_init (encode m); " "]) in
  processor (proccess c0).2
  = with_received (new_processor socket) (string_init (encode m))
  /\ processor (proccess_times 2 c0) = with_received (new_processor socket) " "
  /\ m_ingress (processor (proccess_times 2 c0)) <> [m].
Proof.
  intros Hlen c0.
  assert (Hinit : string_init (encode m) = dump (envelope m)).
  { unfold encode. apply string_init_app_char. }
  assert (Hfit : string_take (Z.to_nat 8192) (dump (envelope m)) = dump (envelope m)).
  { apply string_take_all. unfold encode in Hlen. rewrite string_length_app in Hlen. lia. }
  destruct (proccess_delivery c0 (string_init (encode m))) as (Hp1 & Hk1 & Hon1);
    [done|done|done|].
  rewrite Hinit in *.
  destruct (dump_object_head [("entity", m.2); ("type", JString m.1)]) as [s Hs].
  rewrite <- envelope_members in Hs.
  assert (Hne : String.eqb (dump (envelope m)) EmptyString = false) by (by rewrite Hs).
  rewrite Hne, Hfit in Hp1.
  destruct (proccess_delivery (proccess c0).2 " ") as (Hp2 & _ & _).
  - by rewrite Hp1.
  - by rewrite Hp1.
  - by rewrite Hk1, Hon1.
  - cbn [proccess_times]. rewrite Hp2, Hp1. cbn. done.
Qed.

(** C7.  A stream longer than the buffer is dropped without a word.  A
    new processor is delivered some bytes and then more: [recv] is called
    both times, the test for a full buffer never holding; after the
    second call the bytes of the first delivery are nowhere in the
    processor, which is as the constructor made it but for the bytes of
    the second delivery in the reserved storage; and however many calls
    follow, it never holds more than the 8192 bytes of one delivery, the
    inbound queue and the buffer staying empty. *)
Theorem overlong_stream_is_dropped_silently (b1 b2 : string) socket :
  b2 <> EmptyString ->
  let c0 := mkConnection (@new_processor Args socket) (chunked_socket [b1; b2]) in
  processor (proccess_times 2 c0)
  = with_received (new_processor socket) (string_take (Z.to_nat 8192) b2)
  /\ recv_calls (transport (proccess_times 2 c0)) = 2%nat
  /\ (forall n, exists r,
        processor (proccess_times n c0) = with_received (new_processor socket) r
        /\ (String.length r <= Z.to_nat 8192)%nat).
Proof.
  intros Hb2 c0.
  destruct (proccess_delivery c0 b1) as (Hp1 & Hk1 & Hon1); [done|done|done|].
  assert (Hbuf1 : m_buffer (processor (proccess c0).2) = EmptyString
                  /\ m_capacity (processor (proccess c0).2) = 8192).
  { rewrite Hp1. by destruct (String.eqb b1 EmptyString). }
  destruct Hbuf1 as [Hbuf1 Hcap1].
  destruct (proccess_delivery (proccess c0).2 b2) as (Hp2 & Hk2 & _);
    [done|done|by rewrite Hk1, Hon1|].
  cbn [proccess_times]. split; [|split].
  - rewrite Hp2, Hp1. destruct b2 as [|x b2]; [done|].
    change (String.eqb (String x b2) EmptyString) with false.
    by destruct (String.eqb b1 EmptyString).
  - by rewrite Hk2, Hk1.
  - intros n. apply (proccess_times_storage_only n c0 socket EmptyString); [done|].
    simpl. lia.
Qed.

End feed_facts.

Lemma chunked_stream_is_never_extracted_witness :
  net.m_ingress
    (net.processor
       (net.proccess_times 54
          (net.mkConnection (@net.new_processor unit 3)
             (chunked_socket (bytewise (net.encode_all scenario_messages))))))
  = []
  /\ net.m_ingress
       (net.processor
          (net.proccess_times (length (bytewise (net.encode_all scenario_messages)))
             (net.mkConnection (@net.new_processor unit 3)
                (chunked_socket (bytewise (net.encode_all scenario_messages))))))
     <> scenario_messages.
Proof.
  destruct (chunked_stream_is_never_extracted (Args := unit) scenario_messages
              (bytewise (net.encode_all scenario_messages)) 3) as [Hall Hnot].
  split.
  - apply Hall.
  - apply Hnot; [vm_compute; reflexivity|discriminate].
Defined.

Lemma final_byte_does_not_complete_the_message_witness :
  net.processor
    (net.proccess_times 2
       (net.mkConnection (@net.new_processor unit 3)
          (chunked_socket
             [string_init (net.encode ("net.udp", json11.JNumber 4545)); " "])))
  = net.with_received (net.new_processor 3) " ".
Proof.
  destruct (final_byte_does_not_complete_the_message (Args := unit)
              ("net.udp", json11.JNumber 4545) 3) as (_ & Hlast & _).
  - vm_compute. discriminate.
  - exact Hlast.
Defined.

Lemma overlong_stream_is_dropped_silently_witness :
  net.processor
    (net.proccess_times 2
       (net.mkConnection (@net.new_processor unit 3) (chunked_socket overlong_chunks)))
  = net.with_received (net.new_processor 3) "1] ".
Proof.
  destruct (overlong_stream_is_dropped_silently (Args := unit)
              (String "["%char (string_repeat "1"%char (Z.to_nat 8191))) "1] " 3)
    as (Hdrop & _ & _).
  - discriminate.
  - exact Hdrop.
Defined.

(** ** The flush path on any socket *)

Section drain_facts.
Import json11 net.
Context {Args : Type}.
Implicit Types p : MessageProcessor Args.
Implicit Types c : Connection Args.
Implicit Types t : Transport.

Lemma connection_eta c : mkConnection (processor c) (transport c) = c.
Proof. by destruct c. Qed.

Lemma with_egress_same p : with_egress p (m_egress p) = p.
Proof. by destruct p. Qed.

(** The outer loop returns only with the queue empty, whatever the socket
    does. *)
Lemma flush_loop_returned (queue : list Message) : forall fuel p t c',
  flush_loop fuel queue p t = Returned c' ->
  processor c' = with_egress p [].
Proof.
  induction queue as [|m rest IH]; intros fuel p t c' Hret.
  - by injection Hret as <-.
  - cbn [flush_loop] in Hret.
    destruct (send_loop fuel t (encode m) 0) as [[t' fuel']|[t' fuel']]; [|done].
    by rewrite (IH _ _ _ _ Hret).
Qed.

Lemma string_take_app_l n a b :
  (n <= String.length a)%nat -> string_take n (a +:+ b) = string_take n a.
Proof.
  revert a. induction n as [|n IH]; intros a H.
  - by destruct (a +:+ b), a.
  - destruct a as [|x a]; simpl in H; [lia|].
    rewrite string_app_cons. simpl. rewrite IH; [done|lia].
Qed.

Lemma string_take_app_r n a b :
  string_take (String.length a + n) (a +:+ b) = a +:+ string_take n b.
Proof.
  induction a as [|x a IH]; [done|].
  rewrite !string_app_cons. simpl. by rewrite IH.
Qed.

(** X15.  On any socket at all, [flushSendQueue] returns only when the
    outbound queue is empty, the rest of the processor being as before;
    and a flush that follows a flush that has returned returns at once,
    with no call of [::send] and the connection unchanged. *)
Theorem flushSendQueue_returns_only_when_drained fuel c c' :
  flushSendQueue fuel c = Returned c' ->
  processor c' = with_egress (processor c) []
  /\ forall fuel', flushSendQueue fuel' c' = Returned c'.
Proof.
  intros Hret. unfold flushSendQueue in *.
  apply flush_loop_returned in Hret.
  split; [done|]. intros fuel'. rewrite Hret. cbn [m_egress with_egress flush_loop].
  f_equal. rewrite <- (connection_eta c') at 2. by rewrite Hret.
Qed.

(** X16.  With nothing to send [flushSendQueue] returns at once on any
    socket, a failed one included: [::send] is not called, and the
    connection is as it was. *)
Theorem flushSendQueue_empty_queue_makes_no_call fuel c :
  m_egress (processor c) = [] ->
  flushSendQueue fuel c = Returned c.
Proof.
  intros Hempty. unfold flushSendQueue. rewrite Hempty. cbn [flush_loop].
  by rewrite <- Hempty, with_egress_same, connection_eta.
Qed.

(** X17.  Failed writes lose and repeat nothing.  On a socket of which
    any call of [::send] may fail with -1, the others taking no more than
    offered, the wire has at every moment gained a prefix of the text of
    the queue, the whole of it when [flushSendQueue] has returned; the
    messages still queued are the last ones of the queue. *)
Theorem flushSendQueue_failed_writes_lose_nothing fuel c :
  send_in_range (transport c) ->
  int_sized (m_egress (processor c)) ->
  match flushSendQueue fuel c with
  | Returned c' =>
      wire (transport c') = wire (transport c) +:+ encode_all (m_egress (processor c))
      /\ m_egress (processor c') = []
  | Running c' =>
      exists k, (k < String.length (encode_all (m_egress (processor c))))%nat
        /\ wire (transport c') =
           wire (transport c) +:+ string_take k (encode_all (m_egress (processor c)))
        /\ exists gone, m_egress (processor c) = gone ++ m_egress (processor c')
  end.
Proof.
  intros Hrange Hsized. unfold flushSendQueue.
  pose proof (flush_loop_wire _ fuel (processor c) (transport c) Hrange Hsized) as Hw.
  destruct (flush_loop fuel _ _ _) as [c'|c'].
  - destruct Hw as [-> ->]. done.
  - destruct Hw as (sb & m & rest & k & Hq & -> & Hk & ->).
    rewrite Hq. exists (String.length (encode_all sb) + k)%nat.
    rewrite encode_all_app, encode_all_cons, string_length_app, string_length_app.
    split; [lia|]. split.
    + f_equal. rewrite string_take_app_r. f_equal.
      by rewrite string_take_app_l by lia.
    + by exists (sb ++ [m]); rewrite <- app_assoc.
Qed.

(** X18.  What one processor flushes, another reads back.  The bytes
    [flushSendQueue] puts on a fresh wire for a queue of messages, once
    they are the content of the buffer of a peer, are extracted by its
    [parseBuffer] as exactly those messages, in order and behind the
    messages the peer had already received; and its [dispatch] then
    handles them in that order. *)
Theorem flushed_messages_are_read_back args c (peer : MessageProcessor Args) :
  send_accepts (transport c) ->
  int_sized (m_egress (processor c)) ->
  wf_messages (m_egress (processor c)) ->
  wire (transport c) = EmptyString ->
  m_buffer peer = EmptyString ->
  exists fuel c',
    flushSendQueue fuel c = Returned c'
    /\ parseBuffer (with_buffer peer (wire (transport c')))
       = with_ingress peer (m_ingress peer ++ m_egress (processor c))
    /\ (dispatch args (parseBuffer (with_buffer peer (wire (transport c'))))).2
       = flat_map (events_of (m_socket peer) args peer)
           (m_ingress peer ++ m_egress (processor c)).
Proof.
  intros Hacc Hsized Hwf Hwire Hbuf.
  set (queue := m_egress (processor c)) in *.
  destruct (flush_loop_returns queue (String.length (encode_all queue))
              (processor c) (transport c)) as [c' Hc']; [done|done|lia|].
  exists (String.length (encode_all queue)), c'.
  unfold flushSendQueue. fold queue. split; [done|].
  pose proof (flush_loop_wire queue (String.length (encode_all queue))
                (processor c) (transport c)
                (send_accepts_in_range _ Hacc) Hsized) as Hw.
  rewrite Hc' in Hw. destruct Hw as [_ ->]. rewrite Hwire, string_app_nil_l.
  assert (Hparse : parseBuffer (with_buffer peer (encode_all queue))
                   = with_ingress peer (m_ingress peer ++ queue)).
  { rewrite (parseBuffer_some_parse _ (map envelope queue)).
    - rewrite omap_message_of_envelope. unfold with_ingress, with_buffer; simpl.
      by rewrite <- Hbuf.
    - cbn [m_buffer with_buffer].
      rewrite <- (string_app_nil_l (encode_all queue)) at 2.
      apply parse_values_complete; [done|by left|apply encode_all_length]. }
  rewrite Hparse. split; [done|].
  unfold dispatch. by rewrite dispatch_loop_spec.
Qed.

End drain_facts.

Lemma flaky_socket_in_range : send_in_range flaky_socket.
Proof. intros k n Hn. simpl. destruct (Nat.even k); lia. Qed.

Lemma flushSendQueue_returns_only_when_drained_witness :
  exists c',
    net.flushSendQueue 40 (loaded_connection (steady_socket 7)) = Returned c'
    /\ forall fuel', net.flushSendQueue fuel' c' = Returned c'.
Proof.
  eexists. split.
  - vm_compute. reflexivity.
  - apply (flushSendQueue_returns_only_when_drained 40
             (loaded_connection (steady_socket 7))).
    vm_compute. reflexivity.
Defined.

Lemma flushSendQueue_empty_queue_makes_no_call_witness :
  net.flushSendQueue 0 failed_connection = Returned failed_connection.
Proof.
  apply (flushSendQueue_empty_queue_makes_no_call 0 failed_connection).
  reflexivity.
Defined.

Lemma flushSendQueue_failed_writes_lose_nothing_witness :
  match net.flushSendQueue 9 (loaded_connection flaky_socket) with
  | Returned c' =>
      wire (net.transport c') = net.encode_all [("net.udp", json11.JNumber 4545)]
      /\ net.m_egress (net.processor c') = []
  | Running c' =>
      exists k,
        (k < String.length (net.encode_all [("net.udp", json11.JNumber 4545)]))%nat
        /\ wire (net.transport c') =
           string_take k (net.encode_all [("net.udp", json11.JNumber 4545)])
        /\ exists gone,
             [("net.udp", json11.JNumber 4545)]
             = gone ++ net.m_egress (net.processor c')
  end.
Proof.
  apply (flushSendQueue_failed_writes_lose_nothing 9 (loaded_connection flaky_socket)).
  - exact flaky_socket_in_range.
  - repeat constructor; vm_compute; reflexivity.
Defined.

Lemma flushed_messages_are_read_back_witness :
  exists fuel c',
    net.flushSendQueue fuel (loaded_connection (steady_socket 7)) = Returned c'
    /\ net.parseBuffer
         (net.with_buffer (@net.new_processor unit 9) (wire (net.transport c')))
       = net.with_ingress (net.new_processor 9) [("net.udp", json11.JNumber 4545)]
    /\ (net.dispatch tt
          (net.parseBuffer
             (net.with_buffer (@net.new_processor unit 9) (wire (net.transport c'))))).2
       = [net.Popped "net.udp" (json11.JNumber 4545)].
Proof.
  apply (flushed_messages_are_read_back tt (loaded_connection (steady_socket 7))
           (net.new_processor 9)).
  - exact steady_socket_accepts.
  - repeat constructor; vm_compute; reflexivity.
  - repeat constructor.
  - reflexivity.
  - reflexivity.
Defined.

(** ** The sprite of a tile *)

Section tile_facts.
Import tile.
Variables GRASS FLOWER WATER : Z.
Variable as_byte : Z -> Z.

(** The sprites are numbers a [byte] holds as they are. *)
Hypothesis as_byte_sprite : forall z, 0 <= z <= 4 -> as_byte z = z.

Lemma rem_cycle ticks : 0 <= ticks -> Z.rem (ticks + 240) 240 = Z.rem ticks 240.
Proof.
  intros H. rewrite !Z.rem_mod_nonneg by lia.
  replace (ticks + 240) with (ticks + 1 * 240) by lia. apply Z.mod_add. lia.
Qed.

(** X19.  From tick 0 on, and as long as the tick and the tick 240 later
    are numbers an [int] holds, water runs through the sprites 2, 3, 4,
    3, each for 60 ticks, and every tile shows after 240 ticks what it
    shows now. *)
Theorem render_water_cycle ticks :
  as_byte WATER = WATER -> WATER <> GRASS -> WATER <> FLOWER ->
  0 <= ticks -> ticks + 240 < 2 ^ 31 ->
  render GRASS FLOWER WATER as_byte WATER ticks
  = nth (Z.to_nat (ticks mod 240 / 60)) [2; 3; 4; 3] 2
  /\ forall id, render GRASS FLOWER WATER as_byte id (ticks + 240)
                = render GRASS FLOWER WATER as_byte id ticks.
Proof.
  intros Hw Hg Hf Hticks Hint. split.
  - unfold render. rewrite Hw, int_wrap_small by lia.
    rewrite Z.rem_mod_nonneg by lia.
    destruct (Z.eqb_spec WATER GRASS); [done|].
    destruct (Z.eqb_spec WATER FLOWER); [done|].
    rewrite Z.eqb_refl.
    pose proof (Z.mod_pos_bound ticks 240 ltac:(lia)) as Hb.
    set (a := ticks mod 240) in *.
    assert (Hq : a / 60 = 0 /\ a < 60 \/ a / 60 = 1 /\ 60 <= a < 120
                 \/ a / 60 = 2 /\ 120 <= a < 180 \/ a / 60 = 3 /\ 180 <= a < 240).
    { pose proof (Z.div_mod a 60 ltac:(lia)).
      pose proof (Z.mod_pos_bound a 60 ltac:(lia)). lia. }
    destruct Hq as [[-> ?]|[[-> ?]|[[-> ?]|[-> ?]]]]; simpl;
      repeat (match goal with
              | |- context [?x <=? ?y] => destruct (Z.leb_spec x y); try lia
              | |- context [?x <? ?y] => destruct (Z.ltb_spec x y); try lia
              end; simpl); apply as_byte_sprite; lia.
  - intros id. unfold render. rewrite !int_wrap_small by lia. by rewrite rem_cycle.
Qed.

(** X20.  Before tick 0 nothing moves: for a tick an [int] holds that is
    zero or negative, and at any such tick for every tile that is not
    water, [render] gives the sprite of tick 0; and the sprite is always
    one of 0 to 4. *)
Theorem render_still_frames id ticks :
  - 2 ^ 31 <= ticks < 2 ^ 31 ->
  ticks <= 0 \/ as_byte id <> WATER ->
  render GRASS FLOWER WATER as_byte id ticks = render GRASS FLOWER WATER as_byte id 0
  /\ 0 <= render GRASS FLOWER WATER as_byte id ticks <= 4.
Proof.
  intros Hint Hstill. split.
  - unfold render. rewrite !int_wrap_small by lia. f_equal.
    destruct (as_byte id =? GRASS); [done|]. destruct (as_byte id =? FLOWER); [done|].
    destruct (Z.eqb_spec (as_byte id) WATER) as [Heq|Hne]; [|done].
    destruct Hstill as [Hneg|?]; [|done].
    assert (Z.rem ticks 240 <= 0) by (apply Z.rem_nonpos; lia).
    destruct (Z.leb_spec 60 (Z.rem ticks 240)); [lia|].
    destruct (Z.leb_spec 120 (Z.rem ticks 240)); [lia|].
    destruct (Z.leb_spec 180 (Z.rem ticks 240)); [lia|]. reflexivity.
  - unfold render.
    repeat (match goal with |- context [if ?b then _ else _] => destruct b end);
      rewrite as_byte_sprite; lia.
Qed.

End tile_facts.

Lemma unsigned_byte_sprite z : 0 <= z <= 4 -> tile.unsigned_byte z = z.
Proof. intros H. unfold tile.unsigned_byte. apply Z.mod_small. lia. Qed.

Lemma render_water_cycle_witness :
  tile.render 0 1 2 tile.unsigned_byte 2 130 = 4
  /\ forall id, tile.render 0 1 2 tile.unsigned_byte id (130 + 240)
                = tile.render 0 1 2 tile.unsigned_byte id 130.
Proof.
  apply (render_water_cycle 0 1 2 tile.unsigned_byte unsigned_byte_sprite 130);
    try lia; reflexivity.
Defined.

Lemma render_still_frames_witness :
  tile.render 0 1 2 tile.unsigned_byte 2 (-61) = tile.render 0 1 2 tile.unsigned_byte 2 0
  /\ 0 <= tile.render 0 1 2 tile.unsigned_byte 2 (-61) <= 4.
Proof.
  apply (render_still_frames 0 1 2 tile.unsigned_byte unsigned_byte_sprite 2 (-61));
    [lia|left; lia].
Defined.

(** ** The socket of the client *)

Section tcp_facts.
Import sys.

(** X21.  A closed socket sends nothing: after [close], both [send]
    report failure without a call of [SDLNet_TCP_Send], the socket being
    as [close] left it; and to close twice is to close once, so that the
    destructor after a [close] does not call [SDLNet_TCP_Close] a second
    time. *)
Theorem closed_socket_sends_nothing (s : TCPSocket) buf len :
  m_open (close s) = false
  /\ send_bytes buf len (close s) = (false, close s)
  /\ send buf (close s) = (false, close s)
  /\ close (close s) = close s
  /\ (tcp_closes (destroy (close s)) <= S (tcp_closes s))%nat.
Proof.
  unfold send, send_bytes, destroy, close.
  destruct (m_open s) eqn:Hopen; simpl; rewrite ?Hopen; simpl; repeat split; lia.
Qed.

(** X22.  [send] of a text on an open socket offers the text and the NUL
    byte behind it; it reports success exactly when [SDLNet_TCP_Send]
    has sent them all, and the bytes sent are on the wire also when it
    reports failure. *)
Theorem send_transmits_the_terminator (s : TCPSocket) buf :
  m_open s = true ->
  Z.of_nat (String.length buf) + 1 < 2 ^ 31 ->
  (send buf s).1
  = negb (on_send (m_socket s) (send_calls (m_socket s)) (String.length buf + 1)
          <? Z.of_nat (String.length buf) + 1)
  /\ wire (m_socket (send buf s).2)
     = wire (m_socket s) +:+
       string_take
         (Z.to_nat (on_send (m_socket s) (send_calls (m_socket s)) (String.length buf + 1)))
         (buf +:+ String "000"%char EmptyString).
Proof.
  intros Hopen Hsize.
  unfold send, send_bytes. rewrite Hopen. cbn [negb].
  rewrite int_wrap_small by lia.
  set (offered := buf +:+ String "000"%char EmptyString).
  assert (Hlen : String.length offered = (String.length buf + 1)%nat).
  { unfold offered. by rewrite string_length_app. }
  assert (Hall : string_take (Z.to_nat (Z.of_nat (String.length buf) + 1)) offered = offered).
  { apply string_take_all. lia. }
  rewrite Hall. unfold sys_send. rewrite Hlen.
  by destruct (_ <? _).
Qed.

End tcp_facts.

Lemma send_transmits_the_terminator_witness :
  (sys.send "hi" open_socket).1 = true
  /\ wire (sys.m_socket (sys.send "hi" open_socket).2)
     = String "h" (String "i" (String "000" EmptyString)).
Proof.
  apply (send_transmits_the_terminator open_socket "hi"); [reflexivity|].
  vm_compute. reflexivity.
Defined.

(** ** The special quotes of formatJson *)

(** X23.  With [specialQuotes] the text handed to the parser has every
    backquote of the given text turned into a double quote, inside string
    values as elsewhere, and is otherwise the given text byte for byte:
    it has the same length and no backquote is left, so a second pass
    changes nothing; and a text without backquotes is handed on as it
    is. *)
Theorem special_quotes_leave_no_backquote (s : string) :
  String.length (bq s) = String.length s
  /\ (forall n, String.get n (bq s)
                = (fun c => if Ascii.eqb c "`" then dquote else c) <$> String.get n s)
  /\ (forall n, String.get n (bq s) <> Some "`"%char)
  /\ bq (bq s) = bq s
  /\ ((forall n, String.get n s <> Some "`"%char) -> bq s = s).
Proof.
  induction s as [|c s (Hlen & Hget & Hnone & Hidem & Hsame)].
  - repeat split; try done; by intros [|n].
  - split; [simpl; by rewrite Hlen|]. split; [|split; [|split]].
    + intros [|n]; [done|]. simpl. apply Hget.
    + intros [|n]; simpl; [|apply Hnone].
      destruct (Ascii.eqb_spec c "`"); [done|]. congruence.
    + simpl. rewrite Hidem. f_equal.
      destruct (Ascii.eqb_spec c "`") as [->|Hc]; [done|].
      by destruct (Ascii.eqb_spec c "`").
    + intros Hfree. simpl. rewrite Hsame; [|intros n; apply (Hfree (S n))].
      f_equal. destruct (Ascii.eqb_spec c "`") as [->|Hc]; [|done].
      by destruct (Hfree 0%nat).
Qed.
